(** * SkeRVS: graph interchange codecs, selection and layout control

    A shallow embedding of the graph codecs (Plain / Workbook / EmbeddedDB),
    the selection and highlight logic and the layout driver of

      - [src/static/js/index.js]  (the vanilla page), and
      - [frontend/src/App.tsx] and the [Graph] component, whose text the
        sources carry at the end of [components/Sidebar.tsx]  (the React
        page).

    JavaScript numbers are modelled as exact rationals ([Qc]); the row
    objects handed to and returned by the sheet and SQL libraries are
    modelled as finite maps from column name to primitive value, and the
    libraries themselves as faithful transports of those rows. *)

From Stdlib Require Import ZArith QArith Qcanon Qround Qabs String Lia Lqa.
From Stdlib Require Import DecimalString.
From stdpp Require Import base decidable countable gmap strings list option.
From stdpp Require Import sorting.

Open Scope string_scope.

(* ===================================================================== *)
(** ** JavaScript values                                                 *)
(* ===================================================================== *)

Module JS.

(** Primitive values: what a sheet cell, a SQL column value, a [Map] key
    or a scalar node field can hold. *)
Inductive prim : Type :=
  | PUndef
  | PNull
  | PNum (q : Qc)
  | PStr (s : string).

#[global] Instance prim_eq_dec : EqDecision prim.
Proof. solve_decision. Defined.

Definition prim_to_sum (v : prim) : unit + (unit + (Qc + string)) :=
  match v with
  | PUndef => inl tt
  | PNull => inr (inl tt)
  | PNum q => inr (inr (inl q))
  | PStr s => inr (inr (inr s))
  end.

Definition prim_of_sum (v : unit + (unit + (Qc + string))) : prim :=
  match v with
  | inl _ => PUndef
  | inr (inl _) => PNull
  | inr (inr (inl q)) => PNum q
  | inr (inr (inr s)) => PStr s
  end.

#[global] Instance prim_countable : Countable prim.
Proof.
  apply (inj_countable' prim_to_sum prim_of_sum).
  intros []; reflexivity.
Defined.

(** [ToBoolean]: [undefined], [null], [0] and the empty string are falsy. *)
Definition truthy (v : prim) : bool :=
  match v with
  | PUndef | PNull => false
  | PNum q => negb (bool_decide (q = 0%Qc))
  | PStr s => negb (bool_decide (s = ""))
  end.

(** [a || b] on primitives. *)
Definition or_else (a b : prim) : prim := if truthy a then a else b.

(** Integers as JavaScript numbers. *)
Definition num (z : Z) : prim := PNum (Q2Qc (inject_Z z)).

(** [Number(x.toFixed(2))].  [toFixed] works on the absolute value,
    takes the integer [n] for which [n / 100 - x] is closest to zero (the
    larger [n] on a tie) and puts the sign back; from [1e21] on it prints
    the number itself. *)
Definition round_hundredths (x : Qc) : Qc :=
  Q2Qc (Qfloor (x * 100 + 1 / 2) # 100).

Definition toFixed2 (x : Qc) : Qc :=
  if Qle_bool (10 ^ 21) (Qabs x) then x
  else if Qle_bool 0 x then round_hundredths x
  else Q2Qc (- round_hundredths (Q2Qc (- x))).

(** What a call can do: return, or throw. *)
Inductive outcome (A : Type) : Type :=
  | Ok (a : A)
  | Throw (msg : string).
Arguments Ok {A} a.
Arguments Throw {A} msg.

Definition bind {A B} (m : outcome A) (k : A → outcome B) : outcome B :=
  match m with
  | Ok a => k a
  | Throw e => Throw e
  end.

Definition is_ok {A} (m : outcome A) : bool :=
  match m with Ok _ => true | Throw _ => false end.

(** [xs.map(f)] for an [f] that may throw: the first throw aborts. *)
Fixpoint mapM {A B} (f : A → outcome B) (xs : list A) : outcome (list B) :=
  match xs with
  | [] => Ok []
  | x :: xs' => bind (f x) (λ y, bind (mapM f xs') (λ ys, Ok (y :: ys)))
  end.

End JS.

Import JS.

#[global] Instance outcome_ret : MRet outcome := λ A a, Ok a.
#[global] Instance outcome_bind : MBind outcome := λ A B k m, JS.bind m k.

(* ===================================================================== *)
(** ** Graph model ([frontend/src/types.ts])                             *)
(* ===================================================================== *)

(** [interface Node].  The decoders of [index.js] copy cell values into
    [id] and [weight] without conversion, so both are primitives here; a
    graph that follows [types.ts] has a string there and a number here.
    Absent optional fields are [None]. *)
Record Node : Type := mkNode {
  node_id : prim;
  node_weight : prim;
  node_group : option Z;
  node_groupName : option string;
  node_x : option Qc;
  node_y : option Qc
}.

(** [source: string | Node]. *)
Inductive endpoint : Type :=
  | EPrim (v : prim)
  | ENode (n : Node).

(** [interface Link]. *)
Record Link : Type := mkLink {
  source : endpoint;
  target : endpoint;
  link_weight : prim;
  link_value : option Qc
}.

Record Stats : Type := mkStats {
  stats_nodes : prim;
  stats_links : prim
}.

(** [meta]: [{ file, duration, stats }]. *)
Record Meta : Type := mkMeta {
  meta_file : prim;
  meta_duration : prim;
  meta_stats : option Stats
}.

(** [interface GraphData], as an object met at run time: any member may be
    missing. *)
Record GraphData : Type := mkGraphData {
  nodes : option (list Node);
  links : option (list Link);
  meta : option Meta;
  group_names : option (gmap string string)
}.

#[global] Instance Node_eq_dec : EqDecision Node.
Proof. solve_decision. Defined.
#[global] Instance endpoint_eq_dec : EqDecision endpoint.
Proof. solve_decision. Defined.
#[global] Instance Link_eq_dec : EqDecision Link.
Proof. solve_decision. Defined.
#[global] Instance Stats_eq_dec : EqDecision Stats.
Proof. solve_decision. Defined.
#[global] Instance Meta_eq_dec : EqDecision Meta.
Proof. solve_decision. Defined.
#[global] Instance GraphData_eq_dec : EqDecision GraphData.
Proof. solve_decision. Defined.

(** [l.source.id] once d3 has resolved the endpoint (a raw id resolves to
    the node carrying that id), and likewise the
    [typeof l.source === 'object' ? l.source.id : l.source] of [App.tsx]. *)
Definition endpoint_id (e : endpoint) : prim :=
  match e with
  | EPrim v => v
  | ENode n => node_id n
  end.

(** A node as a decoder builds it: [{ id: ..., weight: ... }]. *)
Definition bare_node (i w : prim) : Node :=
  {| node_id := i; node_weight := w; node_group := None;
     node_groupName := None; node_x := None; node_y := None |}.

(** A link as a decoder builds it: [{ source, target, weight }]. *)
Definition bare_link (s t w : prim) : Link :=
  {| source := EPrim s; target := EPrim t; link_weight := w; link_value := None |}.

(** The text of the Plain format.  [JSON.stringify] and [JSON.parse] are
    taken as a faithful transport of the object; a text that is not JSON
    makes [JSON.parse] throw. *)
Inductive json_text : Type :=
  | JsonText (doc : GraphData)
  | NotJson.

Definition JSON_stringify (g : GraphData) : json_text := JsonText g.

Definition JSON_parse (t : json_text) : outcome GraphData :=
  match t with
  | JsonText doc => Ok doc
  | NotJson => Throw "SyntaxError"
  end.

(** *** What is drawn *)

(** Full and dimmed opacity: [1] and [0.1]. *)
Definition opaque_ : Qc := 1%Qc.
Definition dimmed : Qc := Q2Qc (1 # 10).

(** What is drawn: the nodes and links given to [renderGraph], d3 having
    resolved every link endpoint to its node, and the opacity of each. *)
Record scene : Type := mkScene {
  drawn_nodes : list Node;
  drawn_links : list Link;
  node_opacity : list Qc;
  link_opacity : list Qc
}.

(** [l.source.id === d.id || l.target.id === d.id] *)
Definition isConnected (d : Node) (l : Link) : bool :=
  bool_decide (endpoint_id (source l) = node_id d)
  || bool_decide (endpoint_id (target l) = node_id d).

(** *** Group names *)

(** [String(d.group)], which is also the property key of
    [group_names[d.group]]; a node without [group] gives ["undefined"].
    Group ids are integers. *)
Definition String_of_group (g : option Z) : string :=
  match g with
  | Some z => NilZero.string_of_int (Z.to_int z)
  | None => "undefined"
  end.

(** [`Group ${d.group}`] *)
Definition Group_label (g : option Z) : string := "Group " ++ String_of_group g.

(** [names[k] || fallback]: a missing or empty name gives way. *)
Definition name_or (names : gmap string string) (k fallback : string) : string :=
  match names !! k with
  | Some s => if bool_decide (s = "") then fallback else s
  | None => fallback
  end.

(** [xs.slice(start, end)]: a negative index counts from the end, and both
    are clamped to the array. *)
Definition slice {A} (start stop : Z) (xs : list A) : list A :=
  let len := Z.of_nat (length xs) in
  let rel i := if (i <? 0)%Z then Z.max (len + i) 0 else Z.min i len in
  take (Z.to_nat (rel stop - rel start)) (drop (Z.to_nat (rel start)) xs).

(** [[...new Set(xs)]]: the distinct values in the order of their first
    occurrence. *)
Definition Set_values {A} `{EqDecision A} (xs : list A) : list A :=
  foldl (λ acc x, if bool_decide (x ∈ acc) then acc else (acc ++ [x])%list) [] xs.

(* ===================================================================== *)
(** ** The d3 force simulation, as the pages drive it                     *)
(* ===================================================================== *)

Module D3.

(** The numeric engine of [d3-force] is a library outside the sources; it
    is taken as an interface.  [e_create cx cy] is an engine with the link,
    charge, centre and collision forces set up around [(cx, cy)];
    [e_load ns ls] is [.nodes(ns)] with [force("link").links(ls)] and
    [alpha(1)]; [e_step] is the work of one [tick()]; [e_placed] reads the
    nodes back with their [x] and [y]; [e_fix i p] pins the node at index
    [i] ([fx], [fy]) at [p], or where it stands when [p] is [None], and
    [e_release i] clears the pin.
    Loading and stepping never add or drop a node. *)
Class Engine (engine : Type) : Type := {
  e_create : Qc → Qc → engine;
  e_load : list Node → list Link → engine → engine;
  e_step : engine → engine;
  e_placed : engine → list Node;
  e_fix : nat → option (Qc * Qc) → engine → engine;
  e_release : nat → engine → engine;
  e_load_length : ∀ ns ls e, length (e_placed (e_load ns ls e)) = length ns;
  e_step_length : ∀ e, length (e_placed (e_step e)) = length (e_placed e)
}.

(** A [simulation] object: the engine, whether its internal timer is
    running (on a running timer d3 ticks by the clock until alpha has
    decayed), the alpha target, and the number of ticks made by calls of
    [tick()]. *)
Record simulation (engine : Type) : Type := mkSimulation {
  state : engine;
  timer_running : bool;
  alphaTarget : Qc;
  ticks : nat
}.
Arguments mkSimulation {engine}.
Arguments state {engine}.
Arguments timer_running {engine}.
Arguments alphaTarget {engine}.
Arguments ticks {engine}.

Section Simulation.
Context {engine : Type} `{!Engine engine}.

(** [d3.forceSimulation(...)]: a new simulation starts its timer. *)
Definition forceSimulation (e : engine) : simulation engine :=
  {| state := e; timer_running := true; alphaTarget := 0%Qc; ticks := 0 |}.

(** [simulation.stop()] *)
Definition stop (sim : simulation engine) : simulation engine :=
  {| state := state sim; timer_running := false;
     alphaTarget := alphaTarget sim; ticks := ticks sim |}.

(** [simulation.restart()] *)
Definition restart (sim : simulation engine) : simulation engine :=
  {| state := state sim; timer_running := true;
     alphaTarget := alphaTarget sim; ticks := ticks sim |}.

(** [simulation.alphaTarget(a)] *)
Definition set_alphaTarget (a : Qc) (sim : simulation engine) : simulation engine :=
  {| state := state sim; timer_running := timer_running sim;
     alphaTarget := a; ticks := ticks sim |}.

(** [simulation.tick()] *)
Definition tick (sim : simulation engine) : simulation engine :=
  {| state := e_step (state sim); timer_running := timer_running sim;
     alphaTarget := alphaTarget sim; ticks := S (ticks sim) |}.

(** An update of the engine that leaves the rest alone. *)
Definition on_state (f : engine → engine) (sim : simulation engine)
  : simulation engine :=
  {| state := f (state sim); timer_running := timer_running sim;
     alphaTarget := alphaTarget sim; ticks := ticks sim |}.

(** [for (let i = 0; i < n; ++i) simulation.tick();] *)
Fixpoint tick_loop (n : nat) (sim : simulation engine) : simulation engine :=
  match n with
  | O => sim
  | S n' => tick_loop n' (tick sim)
  end.

End Simulation.

End D3.

(* ===================================================================== *)
(** ** The vanilla page ([src/static/js/index.js])                        *)
(* ===================================================================== *)

Module Vanilla.

(** *** Persisted formats *)

(** A row object, as [XLSX.utils.sheet_to_json] returns it or as the SQL
    decoder assembles it: column name to cell value.  [r.k] on an absent
    key is [undefined]. *)
Definition get (r : gmap string prim) (k : string) : prim :=
  default PUndef (r !! k).

Definition blank (v : prim) : bool :=
  match v with
  | PUndef | PNull => true
  | _ => false
  end.

(** An object literal written through [XLSX.utils.json_to_sheet] and read
    back: a property whose value is [undefined] or [null] leaves a blank
    cell, and a blank cell does not come back as a key. *)
Definition sheet_row (kvs : list (string * prim)) : gmap string prim :=
  foldl (λ r kv, if blank kv.2 then r else <[kv.1 := kv.2]> r) ∅ kvs.

(** The three named sheets of the workbook. *)
Record workbook : Type := mkWorkbook {
  Sheet_Nodes : option (list (gmap string prim));
  Sheet_Links : option (list (gmap string prim));
  Sheet_Meta : option (list (gmap string prim))
}.

(** A SQL result set: [{ columns, values }]. *)
Record table : Type := mkTable {
  columns : list string;
  values : list (list prim)
}.

(** The database image: tables [nodes], [links], [meta], each of which may
    be missing from a file made elsewhere. *)
Record database : Type := mkDatabase {
  tbl_nodes : option table;
  tbl_links : option table;
  tbl_meta : option table
}.

(** Reading a member that must be there: [g.nodes.map(...)] throws a
    [TypeError] on a missing [nodes]. *)
Definition member {A} (m : option A) : outcome A :=
  match m with
  | Some a => Ok a
  | None => Throw "TypeError"
  end.

(** *** Encoders *)

(** [w.toFixed(2)] then [Number(...)]: only a number has [toFixed]. *)
Definition Number_toFixed2 (w : prim) : outcome prim :=
  match w with
  | PNum q => Ok (PNum (toFixed2 q))
  | _ => Throw "TypeError"
  end.

(** [const getId = (n) => (typeof n === 'object' && n.id) ? n.id : n;]
    ([getLabel] in the SQLite exporter is the same function).
    [typeof null] is ['object'], so [null.id] throws. *)
Definition getId (n : endpoint) : outcome endpoint :=
  match n with
  | EPrim PNull => Throw "TypeError"
  | EPrim v => Ok (EPrim v)
  | ENode nd => Ok (if truthy (node_id nd) then EPrim (node_id nd) else ENode nd)
  end.

(** The value [json_to_sheet] receives for a cell.  Only primitives are
    cell values in this model; a node object left in place by [getId]
    stops the export here. *)
Definition cell_value (e : endpoint) : outcome prim :=
  match e with
  | EPrim v => Ok v
  | ENode _ => Throw "object in a cell"
  end.

Definition excel_node_row (n : Node) : outcome (gmap string prim) :=
  w ← Number_toFixed2 (node_weight n);
  Ok (sheet_row [("id", node_id n); ("weight", w)]).

Definition excel_link_row (l : Link) : outcome (gmap string prim) :=
  s ← getId (source l) ≫= cell_value;
  t ← getId (target l) ≫= cell_value;
  w ← Number_toFixed2 (link_weight l);
  Ok (sheet_row [("source", s); ("target", t); ("weight", w)]).

Definition excel_meta_rows (m : Meta) : list (gmap string prim) :=
  [ sheet_row [("key", PStr "filename"); ("value", meta_file m)];
    sheet_row [("key", PStr "duration"); ("value", meta_duration m)];
    sheet_row [("key", PStr "total_nodes");
               ("value", match meta_stats m with
                         | Some st => stats_nodes st
                         | None => num 0
                         end)];
    sheet_row [("key", PStr "total_links");
               ("value", match meta_stats m with
                         | Some st => stats_links st
                         | None => num 0
                         end)] ].

(** [exportDataToExcel]: sheets "Nodes" ([id], [weight]), "Links"
    ([source], [target], [weight]) and, when the graph has [meta], "Meta".
    [Ok None] is the early [return] on an empty page. *)
Definition exportDataToExcel (globalGraphData : option GraphData)
  : outcome (option workbook) :=
  match globalGraphData with
  | None => Ok None
  | Some g =>
      ns ← member (nodes g);
      nodesArr ← mapM excel_node_row ns;
      ls ← member (links g);
      linksArr ← mapM excel_link_row ls;
      Ok (Some {| Sheet_Nodes := Some nodesArr;
                  Sheet_Links := Some linksArr;
                  Sheet_Meta := excel_meta_rows <$> meta g |})
  end.

(** [nodeMap]: [globalGraphData.nodes.forEach((n, i) => nodeMap.set(n.id, i + 1))]. *)
Definition nodeMap_from (start : Z) (ns : list Node) (m : gmap prim Z) : gmap prim Z :=
  (foldl (λ '(m, i) n, (<[node_id n := i]> m, (i + 1)%Z)) (m, start) ns).1.

Definition nodeMap (ns : list Node) : gmap prim Z := nodeMap_from 1 ns ∅.

(** [nodeMap.get(getLabel(l.source))]: a node object is never a key. *)
Definition nodeMap_get (m : gmap prim Z) (e : endpoint) : option Z :=
  match e with
  | EPrim v => m !! v
  | ENode _ => None
  end.

(** A number that [nodeMap] holds is truthy unless it is [0]; a missing
    entry is [undefined]. *)
Definition truthy_id (o : option Z) : bool :=
  match o with
  | Some z => negb (z =? 0)%Z
  | None => false
  end.

Definition sqlite_node_row (m : gmap prim Z) (n : Node) : list prim :=
  [ match m !! node_id n with Some k => num k | None => PUndef end;
    node_id n; node_weight n ].

Definition sqlite_link_row (m : gmap prim Z) (l : Link)
  : outcome (option (list prim)) :=
  sourceLabel ← getId (source l);
  targetLabel ← getId (target l);
  let sId := nodeMap_get m sourceLabel in
  let tId := nodeMap_get m targetLabel in
  Ok (if truthy_id sId && truthy_id tId
      then Some [ from_option num PUndef sId; from_option num PUndef tId; link_weight l ]
      else None).

Section Builtins.

(** [Number.prototype.toString], [parseInt] and the name of the imported
    file are taken as they come. *)
Variable Number_toString : Qc → string.
Variable parseInt : prim → option Z.
Variable file_name : string.

(** [x.toString()]. *)
Definition toString (v : prim) : outcome prim :=
  match v with
  | PNum q => Ok (PStr (Number_toString q))
  | PStr s => Ok (PStr s)
  | PUndef | PNull => Throw "TypeError"
  end.

Definition sqlite_meta_rows (m : Meta) : outcome (list (list prim)) :=
  st ← match meta_stats m with
       | None => Ok []
       | Some st =>
           n ← toString (stats_nodes st);
           l ← toString (stats_links st);
           Ok [ [PStr "total_nodes"; n]; [PStr "total_links"; l] ]
       end;
  Ok (app [ [PStr "filename"; meta_file m]; [PStr "duration"; meta_duration m] ] st).

(** [exportDataToSQLite]: tables [nodes(id INTEGER PRIMARY KEY, label,
    weight)], [links(source, target, weight)], [meta(key, value)].  Values
    are kept as bound.  Two rows with one [id] violate the primary key, the
    insert throws and the [catch] reports the failure: no file is made. *)
Definition exportDataToSQLite (globalGraphData : option GraphData)
  : outcome (option database) :=
  match globalGraphData with
  | None => Ok None
  | Some g =>
      ns ← member (nodes g);
      let m := nodeMap ns in
      let nodeRows := sqlite_node_row m <$> ns in
      _ ← (if bool_decide (NoDup (node_id <$> ns)) then Ok tt
           else Throw "UNIQUE constraint failed: nodes.id");
      ls ← member (links g);
      linkRows ← mapM (sqlite_link_row m) ls;
      metaRows ← match meta g with
                 | None => Ok None
                 | Some mt => r ← sqlite_meta_rows mt; Ok (Some r)
                 end;
      Ok (Some {| tbl_nodes := Some {| columns := ["id"; "label"; "weight"];
                                       values := nodeRows |};
                  tbl_links := Some {| columns := ["source"; "target"; "weight"];
                                       values := omap id linkRows |};
                  tbl_meta := Some {| columns := ["key"; "value"];
                                      values := default [] metaRows |} |})
  end.

(** [exportData]: the Plain format is the graph object itself. *)
Definition exportData (globalGraphData : option GraphData) : option json_text :=
  JSON_stringify <$> globalGraphData.

(** *** Decoders *)

(** [parseInt(v) || n]: [NaN] and [0] give way to the count. *)
Definition parseInt_or (v : prim) (n : nat) : prim :=
  match parseInt v with
  | Some z => if (z =? 0)%Z then num (Z.of_nat n) else num z
  | None => num (Z.of_nat n)
  end.

(** The property key of [metaObj[k] = ...]. *)
Definition property_key (k : prim) : string :=
  match k with
  | PStr s => s
  | PNum q => Number_toString q
  | PUndef => "undefined"
  | PNull => "null"
  end.

(** [{ file: file.name, stats: { nodes: nodes.length, links: links.length } }] *)
Definition default_meta (ns : list Node) (ls : list Link) : Meta :=
  {| meta_file := PStr file_name;
     meta_duration := PUndef;
     meta_stats := Some {| stats_nodes := num (Z.of_nat (length ns));
                           stats_links := num (Z.of_nat (length ls)) |} |}.

(** The meta object rebuilt from the key/value table. *)
Definition rebuilt_meta (metaObj : gmap string prim) (ns : list Node) (ls : list Link)
  : Meta :=
  {| meta_file := or_else (get metaObj "filename") (PStr file_name);
     meta_duration := or_else (get metaObj "duration") (PStr "N/A");
     meta_stats :=
       Some {| stats_nodes := parseInt_or (get metaObj "total_nodes") (length ns);
               stats_links := parseInt_or (get metaObj "total_links") (length ls) |} |}.

(** The body of the node loop, shared by both tabular decoders:
    [[
    if (isNewSchema) { nodes.push({ id: row.label, weight: row.weight });
                       idToLabelMap.set(row.id, row.label); }
    else             { nodes.push({ id: row.id, weight: row.weight });
                       idToLabelMap.set(row.id, row.id); }
    ]] *)
Definition node_of_row (newSchema : bool) (row : gmap string prim) : Node :=
  if newSchema then bare_node (get row "label") (get row "weight")
  else bare_node (get row "id") (get row "weight").

Definition idToLabelMap_set (newSchema : bool) (m : gmap prim prim)
    (row : gmap string prim) : gmap prim prim :=
  if newSchema then <[get row "id" := get row "label"]> m
  else <[get row "id" := get row "id"]> m.

Definition idToLabelMap_of (newSchema : bool) (rows : list (gmap string prim))
  : gmap prim prim :=
  foldl (idToLabelMap_set newSchema) ∅ rows.

(** [idToLabelMap.get(k)]: [undefined] when [k] is not a key. *)
Definition idToLabelMap_get (m : gmap prim prim) (k : prim) : prim :=
  default PUndef (m !! k).

(** The body of the link loop, shared by both tabular decoders:
    [[
    const sLabel = idToLabelMap.get(row.source);
    const tLabel = idToLabelMap.get(row.target);
    if (sLabel && tLabel) links.push({ source: sLabel, target: tLabel, weight: row.weight });
    ]] *)
Definition link_of_row (m : gmap prim prim) (row : gmap string prim) : option Link :=
  let sLabel := idToLabelMap_get m (get row "source") in
  let tLabel := idToLabelMap_get m (get row "target") in
  if truthy sLabel && truthy tLabel
  then Some (bare_link sLabel tLabel (get row "weight"))
  else None.

(** [const isNewSchema = rawNodes.length > 0 && ('label' in rawNodes[0]);] *)
Definition isNewSchema (rawNodes : list (gmap string prim)) : bool :=
  match rawNodes with
  | [] => false
  | row0 :: _ => bool_decide (is_Some (row0 !! "label"))
  end.

(** The Workbook branch of [importAndVisualize], up to the object handed
    to [processResult]. *)
Definition decodeWorkbook (wb : workbook) : outcome GraphData :=
  match Sheet_Nodes wb with
  | None => Throw "missing 'Nodes' sheet"
  | Some rawNodes =>
      let new := isNewSchema rawNodes in
      let ns := node_of_row new <$> rawNodes in
      let idToLabelMap := idToLabelMap_of new rawNodes in
      match Sheet_Links wb with
      | None => Throw "missing 'Links' sheet"
      | Some rawLinks =>
          let ls := omap (link_of_row idToLabelMap) rawLinks in
          let mt :=
            match Sheet_Meta wb with
            | None => default_meta ns ls
            | Some metaArr =>
                rebuilt_meta
                  (foldl (λ metaObj item,
                            <[property_key (get item "key") := get item "value"]> metaObj)
                         ∅ metaArr)
                  ns ls
            end in
          Ok {| nodes := Some ns; links := Some ls; meta := Some mt;
                group_names := None |}
      end
  end.

(** [cols.forEach((col, i) => rowObj[col] = row[i])] *)
Definition rowObj (cols : list string) (row : list prim) : gmap string prim :=
  foldl (λ o kv, <[kv.1 := kv.2]> o) ∅
        (imap (λ i col, (col, default PUndef (row !! i))) cols).

(** The EmbeddedDB branch of [importAndVisualize], up to the object handed
    to [processResult].  [PRAGMA table_info(nodes)] of a missing table and
    [SELECT * FROM links] of a missing table throw; a missing [meta] table
    is tolerated. *)
Definition decodeSQLite (db : database) : outcome GraphData :=
  match tbl_nodes db with
  | None => Throw "reading the nodes table failed"
  | Some nt =>
      let hasLabel := bool_decide ("label" ∈ columns nt) in
      let rows := rowObj (columns nt) <$> values nt in
      let ns := node_of_row hasLabel <$> rows in
      let idToLabelMap := idToLabelMap_of hasLabel rows in
      match tbl_links db with
      | None => Throw "reading the links table failed"
      | Some lt =>
          let ls := omap (link_of_row idToLabelMap) (rowObj (columns lt) <$> values lt) in
          let mt :=
            match tbl_meta db with
            | None => default_meta ns ls
            | Some t =>
                match values t with
                | [] => default_meta ns ls
                | vals =>
                    rebuilt_meta
                      (foldl (λ metaObj row,
                                <[property_key (default PUndef (row !! 0%nat))
                                  := default PUndef (row !! 1%nat)]> metaObj)
                             ∅ vals)
                      ns ls
                end
            end in
          Ok {| nodes := Some ns; links := Some ls; meta := Some mt;
                group_names := None |}
      end
  end.

(** *** Page state and import *)

(** The globals an import touches: [globalGraphData], [window.currentFile]
    and the node-count slider. *)
Record page : Type := mkPage {
  globalGraphData : option GraphData;
  currentFile : prim;
  slider_max : Z;
  slider_value : Z
}.

(** [nodeIds.has(l.source) || nodeIds.has(l.source.id)]: reading [.id] of
    [undefined] or [null] throws, of a string or number gives [undefined]. *)
Definition in_nodeIds (nodeIds : gset prim) (e : endpoint) : outcome bool :=
  match e with
  | ENode n => Ok (bool_decide (node_id n ∈ nodeIds))
  | EPrim v =>
      if bool_decide (v ∈ nodeIds) then Ok true
      else match v with
           | PUndef | PNull => Throw "TypeError"
           | _ => Ok (bool_decide (PUndef ∈ nodeIds))
           end
  end.

Definition link_shown (nodeIds : gset prim) (l : Link) : outcome bool :=
  in_nodeIds nodeIds (source l) ≫= λ s : bool,
    if s then in_nodeIds nodeIds (target l) else Ok false.

(** [xs.filter(p)] for a [p] that may throw. *)
Fixpoint filterM {A} (p : A → outcome bool) (xs : list A) : outcome (list A) :=
  match xs with
  | [] => Ok []
  | x :: xs' =>
      p x ≫= λ b : bool,
        ys ← filterM p xs';
        Ok (if b then x :: ys else ys)
  end.

(** [globalGraphData.nodes.slice(0, limit)] *)
Definition slice0 {A} (limit : Z) (xs : list A) : list A :=
  if (limit <? 0)%Z then take (length xs - Z.to_nat (- limit)) xs
  else take (Z.to_nat limit) xs.

(** [applyNodeFilter(val)] followed by the [globalGraphData = data] that
    opens [renderGraph]: the first [limit] nodes and the links between
    them become the graph of the page. *)
Definition applyNodeFilter (limit : Z) (st : page) : outcome page :=
  match globalGraphData st with
  | None => Ok st
  | Some g =>
      all ← member (nodes g);
      let ns := slice0 limit all in
      let nodeIds : gset prim := list_to_set (node_id <$> ns) in
      ls0 ← member (links g);
      ls ← filterM (link_shown nodeIds) ls0;
      Ok {| globalGraphData :=
              Some {| nodes := Some ns; links := Some ls;
                      meta := meta g; group_names := group_names g |};
            currentFile := currentFile st;
            slider_max := slider_max st;
            slider_value := slider_value st |}
  end.

(** [processResult(result)]: reject a result without [nodes] or [links]
    before anything is assigned; otherwise install it, set the slider and
    render through [applyNodeFilter].  The page is returned together with
    what the call did, so that a throw after the assignments keeps them.
    (The drawing done by [renderGraph] is outside this model.) *)
Definition processResult (result : GraphData) (st : page) : page * outcome () :=
  match nodes result, links result with
  | Some ns, Some _ =>
      let maxNodes := Z.of_nat (length ns) in
      let st1 :=
        {| globalGraphData := Some result;
           currentFile := match meta result with
                          | Some m => if truthy (meta_file m) then meta_file m
                                      else PStr file_name
                          | None => PStr file_name
                          end;
           slider_max := maxNodes;
           slider_value := Z.min 200 maxNodes |} in
      match applyNodeFilter (slider_value st1) st1 with
      | Ok st2 => (st2, Ok ())
      | Throw e => (st1, Throw e)
      end
  | _, _ => (st, Throw "invalid data: nodes or links missing")
  end.

(** What [importAndVisualize] reads from the chosen file. *)
Inductive import_file : Type :=
  | PlainFile (t : json_text)
  | WorkbookFile (wb : workbook)
  | SQLiteFile (db : database).

(** The decoder chosen by the kind of file. *)
Definition decode (f : import_file) : outcome GraphData :=
  match f with
  | PlainFile t => JSON_parse t
  | WorkbookFile wb => decodeWorkbook wb
  | SQLiteFile db => decodeSQLite db
  end.

(** [importAndVisualize]: decode, then [processResult]; each branch sits
    in a [try] whose [catch] only reports the failure. *)
Definition importAndVisualize (f : import_file) (st : page) : page * outcome () :=
  match decode f with
  | Ok result => processResult result st
  | Throw e => (st, Throw e)
  end.

End Builtins.

(** *** Layout *)

Section Layout.
Context {engine : Type} `{!D3.Engine engine}.

(** The one simulation of the page, made when the script loads:
    [d3.forceSimulation().force(...)....stop()]. *)
Definition simulation (width height : Qc) : D3.simulation engine :=
  D3.stop (D3.forceSimulation (D3.e_create (width / 2) (height / 2))).

(** The layout pass of [renderGraph]: load the nodes and links, reset
    alpha, and call [tick()] 300 times. *)
Definition renderGraph_layout (ns : list Node) (ls : list Link)
    (sim : D3.simulation engine) : D3.simulation engine :=
  D3.tick_loop 300 (D3.on_state (D3.e_load ns ls) sim).

(** [drag(simulation)]: the handlers move the dragged node on the page by
    hand and never touch the simulation. *)
Inductive drag_event : Type :=
  | dragstarted
  | dragged (i : nat) (ex ey : Qc)
  | dragended.

Definition drag (ev : drag_event) (sim : D3.simulation engine)
  : D3.simulation engine := sim.

End Layout.

(** *** Highlight *)

(** The set [neighborIds] built inside [highlightNeighbors]:
    [[
    const neighborIds = new Set();
    links.filter(l => { ... if (isConnected) { neighborIds.add(l.source.id);
                                               neighborIds.add(l.target.id); } ... });
    ]] *)
Definition neighborIds (d : Node) (ls : list Link) : gset prim :=
  foldl (λ acc l, if isConnected d l
                  then acc ∪ {[endpoint_id (source l)]} ∪ {[endpoint_id (target l)]}
                  else acc) ∅ ls.

(** [resetHighlight]: every node and link back to opacity 1. *)
Definition resetHighlight (sc : scene) : scene :=
  {| drawn_nodes := drawn_nodes sc;
     drawn_links := drawn_links sc;
     node_opacity := (λ _, opaque_) <$> drawn_nodes sc;
     link_opacity := (λ _, opaque_) <$> drawn_links sc |}.

(** [highlightNeighbors(d)]: reset, dim everything, then give opacity 1 to
    the links that touch [d] and to the nodes whose id is in
    [neighborIds]. *)
Definition highlightNeighbors (d : Node) (sc : scene) : scene :=
  let sc := resetHighlight sc in
  let ids := neighborIds d (drawn_links sc) in
  {| drawn_nodes := drawn_nodes sc;
     drawn_links := drawn_links sc;
     node_opacity :=
       (λ n, if bool_decide (node_id n ∈ ids) then opaque_ else dimmed)
         <$> drawn_nodes sc;
     link_opacity :=
       (λ l, if isConnected d l then opaque_ else dimmed) <$> drawn_links sc |}.

(** [svg.on("click", ...)]: a click on the background resets. *)
Definition background_click (sc : scene) : scene := resetHighlight sc.

(** The number shown under the selected node:
    [Math.max(0, neighborIds.size - 1)]. *)
Definition neighbor_count (d : Node) (ls : list Link) : Z :=
  Z.max 0 (Z.of_nat (size (neighborIds d ls)) - 1).

(** The group name shown under the selected node:
    [[
    let groupName = "Unknown";
    if (d.groupName) groupName = d.groupName;
    else if (globalGraphData.group_names)
      groupName = globalGraphData.group_names[d.group] || `Group ${d.group}`;
    else groupName = `Group ${d.group}`;
    ]] *)
Definition groupName (d : Node) (group_names : option (gmap string string)) : string :=
  match node_groupName d with
  | Some s =>
      if bool_decide (s = "") then
        match group_names with
        | Some names => name_or names (String_of_group (node_group d))
                                (Group_label (node_group d))
        | None => Group_label (node_group d)
        end
      else s
  | None =>
      match group_names with
      | Some names => name_or names (String_of_group (node_group d))
                              (Group_label (node_group d))
      | None => Group_label (node_group d)
      end
  end.

(** *** Legend *)

(** [[...new Set(nodes.map(d => d.group))].filter(g => g !== undefined)
      .sort((a, b) => a - b)] *)
Definition legend_groups (ns : list Node) : list Z :=
  merge_sort Z.le (omap id (Set_values (node_group <$> ns))).

(** The label of a legend item: [group_names[g] || group_names[String(g)]]
    when the graph has [group_names], and [`Group ${g}`] when that gives
    nothing. *)
Definition legend_label (group_names : option (gmap string string)) (g : Z) : string :=
  match group_names with
  | Some names =>
      let k := String_of_group (Some g) in
      let groupName := name_or names k (name_or names k "") in
      if bool_decide (groupName = "") then Group_label (Some g) else groupName
  | None => Group_label (Some g)
  end.

(** The legend of [renderGraph]: one item per group, or [None] when the
    legend is hidden because no node has a group. *)
Definition legend (ns : list Node) (group_names : option (gmap string string))
  : option (list (Z * string)) :=
  match legend_groups ns with
  | [] => None
  | groups => Some ((λ g, (g, legend_label group_names g)) <$> groups)
  end.

(** *** Context search *)

Section Search.

(** The text and the keyword are sequences of UTF-16 code units;
    [terminator] tells the units of the class [[。！？.!?\r\n]]. *)
Context {char : Type} `{EqDecision char} (terminator : char → bool).

(** Where the scan of [/[^。！？.!?\r\n]+[。！？.!?\r\n]+/g] stands: before
    a sentence, in its run of other units, or in its run of
    terminators. *)
Inductive scan : Type :=
  | Outside
  | InBody (acc : list char)
  | InTail (acc : list char).

(** The successive matches of the pattern: each is a longest run of
    non-terminators followed by a longest run of terminators.
    Terminators met before a sentence starts are skipped; a run that the
    text ends without a terminator matches nothing. *)
Fixpoint scan_text (s : scan) (text : list char) : list (list char) :=
  match text with
  | [] => match s with
          | InTail acc => [acc]
          | _ => []
          end
  | c :: rest =>
      if terminator c then
        match s with
        | Outside => scan_text Outside rest
        | InBody acc | InTail acc => scan_text (InTail (acc ++ [c])%list) rest
        end
      else
        match s with
        | Outside => scan_text (InBody [c]) rest
        | InBody acc => scan_text (InBody (acc ++ [c])%list) rest
        | InTail acc => acc :: scan_text (InBody [c]) rest
        end
  end.

(** [rawTextContent.match(...) || []] *)
Definition sentences (text : list char) : list (list char) :=
  scan_text Outside text.

(** [kw] starts [s]. *)
Fixpoint starts_with (kw s : list char) : bool :=
  match kw, s with
  | [], _ => true
  | _ :: _, [] => false
  | a :: kw', b :: s' => bool_decide (a = b) && starts_with kw' s'
  end.

(** [s.indexOf(kw) !== -1] *)
Fixpoint contains (kw s : list char) : bool :=
  starts_with kw s ||
  match s with
  | [] => false
  | _ :: s' => contains kw s'
  end.

(** [currentSearchState] *)
Record search_state : Type := mkSearch {
  keyword : list char;
  results : list (list char);
  current_page : Z;
  pageSize : Z
}.

(** The state the script starts with. *)
Definition initial_search : search_state :=
  {| keyword := []; results := []; current_page := 1; pageSize := 5 |}.

(** [performSearch(keyword)], with the text at hand. *)
Definition performSearch (rawTextContent : list char) (kw : list char)
  : search_state :=
  {| keyword := kw;
     results := filter (λ s, contains kw s = true) (sentences rawTextContent);
     current_page := 1;
     pageSize := 10 |}.

(** [Math.ceil(results.length / pageSize)], for the page sizes the script
    uses (5 and 10). *)
Definition totalPages (st : search_state) : Z :=
  ((Z.of_nat (length (results st)) + pageSize st - 1) / pageSize st)%Z.

(** What [renderContextResults] puts in the panel: a notice when there is
    no result, else the items of the current page and the controls. *)
Inductive context_view : Type :=
  | NoResults
  | ResultPage (pageItems : list (list char)) (page_no total_pages : Z)
               (count : nat) (prev_disabled next_disabled : bool).

Definition pageItems (st : search_state) : list (list char) :=
  let start := ((current_page st - 1) * pageSize st)%Z in
  slice start (start + pageSize st) (results st).

Definition renderContextResults (st : search_state) : context_view :=
  match results st with
  | [] => NoResults
  | _ =>
      ResultPage (pageItems st) (current_page st) (totalPages st) (length (results st))
                 (current_page st <=? 1)%Z (totalPages st <=? current_page st)%Z
  end.

(** [changeContextPage(delta)] *)
Definition changeContextPage (delta : Z) (st : search_state) : search_state :=
  let nextPage := (current_page st + delta)%Z in
  if (1 <=? nextPage)%Z && (nextPage <=? totalPages st)%Z
  then {| keyword := keyword st; results := results st;
          current_page := nextPage; pageSize := pageSize st |}
  else st.

End Search.

End Vanilla.

(* ===================================================================== *)
(** ** The React page ([frontend/src/App.tsx] and the [Graph] component) *)
(* ===================================================================== *)

Module React.

(** The state hooks of [App] that the handlers below read or set. *)
Record app : Type := mkApp {
  graphData : option GraphData;
  filteredData : option GraphData;
  nodeCount : Z;
  selectedNode : option Node;
  contextOpen : bool;
  stats : option Stats
}.

Definition setGraphData (v : option GraphData) (st : app) : app :=
  {| graphData := v; filteredData := filteredData st; nodeCount := nodeCount st;
     selectedNode := selectedNode st; contextOpen := contextOpen st; stats := stats st |}.

Definition setFilteredData (v : option GraphData) (st : app) : app :=
  {| graphData := graphData st; filteredData := v; nodeCount := nodeCount st;
     selectedNode := selectedNode st; contextOpen := contextOpen st; stats := stats st |}.

Definition setNodeCount (v : Z) (st : app) : app :=
  {| graphData := graphData st; filteredData := filteredData st; nodeCount := v;
     selectedNode := selectedNode st; contextOpen := contextOpen st; stats := stats st |}.

Definition setSelectedNode (v : option Node) (st : app) : app :=
  {| graphData := graphData st; filteredData := filteredData st; nodeCount := nodeCount st;
     selectedNode := v; contextOpen := contextOpen st; stats := stats st |}.

Definition setContextOpen (v : bool) (st : app) : app :=
  {| graphData := graphData st; filteredData := filteredData st; nodeCount := nodeCount st;
     selectedNode := selectedNode st; contextOpen := v; stats := stats st |}.

Definition setStats (v : option Stats) (st : app) : app :=
  {| graphData := graphData st; filteredData := filteredData st; nodeCount := nodeCount st;
     selectedNode := selectedNode st; contextOpen := contextOpen st; stats := v |}.

(** [(typeof l.source === 'object') ? l.source.id : l.source]; [typeof
    null] is ['object'], so a [null] endpoint throws. *)
Definition idOf (e : endpoint) : outcome prim :=
  match e with
  | EPrim PNull => Throw "TypeError"
  | EPrim v => Ok v
  | ENode n => Ok (node_id n)
  end.

(** [filterData(data, limit)]: the first [limit] nodes and the links with
    both ends among them, cloned. *)
Definition filterData (data : option GraphData) (limit : Z)
  : outcome (option GraphData) :=
  match data with
  | None => Ok None
  | Some d =>
      all ← Vanilla.member (nodes d);
      let ns := Vanilla.slice0 limit all in
      let nodeIds : gset prim := list_to_set (node_id <$> ns) in
      ls0 ← Vanilla.member (links d);
      ls ← Vanilla.filterM
              (λ l, s ← idOf (source l);
                    t ← idOf (target l);
                    Ok (bool_decide (s ∈ nodeIds) && bool_decide (t ∈ nodeIds)))
              ls0;
      Ok (Some {| nodes := Some ns; links := Some ls;
                  meta := meta d; group_names := group_names d |})
  end.

(** A handler run: the state with the updates made so far, and whether the
    handler threw.  An update made before a throw stays made. *)
Definition run : Type := app * outcome ().

(** [handleDeleteNode] *)
Definition handleDeleteNode (st : app) : run :=
  match selectedNode st, graphData st with
  | Some sel, Some g =>
      match
        (all ← Vanilla.member (nodes g);
         let newNodes := filter (λ n, node_id n ≠ node_id sel) all in
         ls0 ← Vanilla.member (links g);
         newLinks ← Vanilla.filterM
                      (λ l, s ← idOf (source l);
                            t ← idOf (target l);
                            Ok (bool_decide (s ≠ node_id sel)
                                && bool_decide (t ≠ node_id sel)))
                      ls0;
         Ok {| nodes := Some newNodes; links := Some newLinks;
               meta := meta g; group_names := group_names g |})
      with
      | Throw e => (st, Throw e)
      | Ok newGraphData =>
          let st1 := setGraphData (Some newGraphData) st in
          match filterData (Some newGraphData) (nodeCount st) with
          | Throw e => (st1, Throw e)
          | Ok fd =>
              (setContextOpen false (setSelectedNode None (setFilteredData fd st1)),
               Ok ())
          end
      end
  | _, _ => (st, Ok ())
  end.

(** [handleBackgroundClick] *)
Definition handleBackgroundClick (st : app) : app :=
  setContextOpen false (setSelectedNode None st).

(** [handleNodeClick], as far as the selection goes. *)
Definition handleNodeClick (node : Node) (st : app) : app :=
  setContextOpen true (setSelectedNode (Some node) st).

(** [handleNodeRangeChange] *)
Definition handleNodeRangeChange (val : Z) (st : app) : run :=
  let st1 := setNodeCount val st in
  match filterData (graphData st) val with
  | Throw e => (st1, Throw e)
  | Ok fd => (setFilteredData fd st1, Ok ())
  end.

(** [handleImport]: the text is parsed and installed step by step inside
    one [try]; the [catch] only reports. *)
Definition handleImport (text : json_text) (st : app) : run :=
  match JSON_parse text with
  | Throw e => (st, Throw e)
  | Ok json =>
      let st1 := setGraphData (Some json) st in
      let st2 := setStats (m ← meta json; meta_stats m) st1 in
      match nodes json with
      | None => (st2, Throw "TypeError")
      | Some ns =>
          let initialCount := Z.min 200 (Z.of_nat (length ns)) in
          let st3 := setNodeCount initialCount st2 in
          match filterData (Some json) initialCount with
          | Throw e => (st3, Throw e)
          | Ok fd => (setFilteredData fd st3, Ok ())
          end
      end
  end.

(** The [completed] message of an analysis task, in the [onmessage]
    handler that [handleUpload] installs, [result] being [data.result]:
    [[
    setGraphData(data.result);
    if (data.result.meta && data.result.meta.stats) setStats(data.result.meta.stats);
    const initialCount = Math.min(200, data.result.nodes.length);
    setNodeCount(initialCount);
    setFilteredData(filterData(data.result, initialCount));
    ]]
    The handler has no [try]. *)
Definition upload_completed (result : GraphData) (st : app) : run :=
  let st1 := setGraphData (Some result) st in
  let st2 := match m ← meta result; meta_stats m with
             | Some s => setStats (Some s) st1
             | None => st1
             end in
  match nodes result with
  | None => (st2, Throw "TypeError")
  | Some ns =>
      let initialCount := Z.min 200 (Z.of_nat (length ns)) in
      let st3 := setNodeCount initialCount st2 in
      match filterData (Some result) initialCount with
      | Throw e => (st3, Throw e)
      | Ok fd => (setFilteredData fd st3, Ok ())
      end
  end.

(** The [type] argument of [onExport]. *)
Inductive export_type : Type := json | excel | sqlite.

(** [handleExport]: the text offered for download, if any.  Only ['json']
    writes; the other types end in an alert. *)
Definition handleExport (type : export_type) (st : app) : option json_text :=
  let dataToExport :=
    match graphData st with
    | Some g => Some g
    | None => filteredData st
    end in
  match dataToExport, type with
  | Some d, json => Some (JSON_stringify d)
  | _, _ => None
  end.

(** *** [Graph]: layout *)

Section Layout.
Context {engine : Type} `{!D3.Engine engine}.

(** The layout effect: a new simulation over the nodes and links of
    [data], stopped at once, then 300 calls of [tick()]. *)
Definition layout (ns : list Node) (ls : list Link) (width height : Qc)
  : D3.simulation engine :=
  D3.tick_loop 300
    (D3.stop (D3.forceSimulation
                (D3.e_load ns ls (D3.e_create (width / 2) (height / 2))))).

(** The drag gestures on a node; [active] is [event.active], the number of
    other gestures in progress. *)
Inductive drag_event : Type :=
  | drag_start (active : nat) (i : nat)
  | drag_move (i : nat) (ex ey : Qc)
  | drag_end (active : nat) (i : nat).

(** The handlers given to [d3.drag()]:
    [[
    .on("start", (event, d) => { if (!event.active) simulation.alphaTarget(0.3).restart();
                                 d.fx = d.x; d.fy = d.y; })
    .on("drag",  (event, d) => { d.fx = event.x; d.fy = event.y; })
    .on("end",   (event, d) => { if (!event.active) simulation.alphaTarget(0);
                                 d.fx = null; d.fy = null; })
    ]] *)
Definition drag (ev : drag_event) (sim : D3.simulation engine)
  : D3.simulation engine :=
  match ev with
  | drag_start active i =>
      let sim := if bool_decide (active = 0%nat)
                 then D3.restart (D3.set_alphaTarget (Q2Qc (3 # 10)) sim)
                 else sim in
      D3.on_state (D3.e_fix i None) sim
  | drag_move i ex ey => D3.on_state (D3.e_fix i (Some (ex, ey))) sim
  | drag_end active i =>
      let sim := if bool_decide (active = 0%nat)
                 then D3.set_alphaTarget 0%Qc sim
                 else sim in
      D3.on_state (D3.e_release i) sim
  end.

End Layout.

(** *** [Graph]: highlight *)

(** The set [neighborIds] of the highlight effect:
    [[
    neighborIds.add(d.id);
    data.links.forEach(l => { if (l.source.id === d.id) neighborIds.add(l.target.id);
                              if (l.target.id === d.id) neighborIds.add(l.source.id); });
    ]] *)
Definition neighborIds (d : Node) (ls : list Link) : gset prim :=
  foldl (λ acc l,
           let acc1 := if bool_decide (endpoint_id (source l) = node_id d)
                       then acc ∪ {[endpoint_id (target l)]} else acc in
           if bool_decide (endpoint_id (target l) = node_id d)
           then acc1 ∪ {[endpoint_id (source l)]} else acc1)
        {[node_id d]} ls.

(** The highlight effect for the nodes and links of [data]: with no
    selection everything is at opacity 1; with a selection everything is
    dimmed to 0.1 except the links that touch it, the nodes in
    [neighborIds], and the selected node itself. *)
Definition highlight (selected : option Node) (ns : list Node) (ls : list Link)
  : scene :=
  match selected with
  | None =>
      {| drawn_nodes := ns; drawn_links := ls;
         node_opacity := (λ _, opaque_) <$> ns;
         link_opacity := (λ _, opaque_) <$> ls |}
  | Some d =>
      let ids := neighborIds d ls in
      {| drawn_nodes := ns; drawn_links := ls;
         node_opacity :=
           (λ n, if bool_decide (node_id n ∈ ids) then opaque_
                 else if bool_decide (node_id n = node_id d) then opaque_
                 else dimmed) <$> ns;
         link_opacity :=
           (λ l, if isConnected d l then opaque_ else dimmed)
             <$> ls |}
  end.

(** The number shown under the selected node:
    [Math.max(0, neighborIds.size - 1)]. *)
Definition neighbor_count (d : Node) (ls : list Link) : Z :=
  Z.max 0 (Z.of_nat (size (neighborIds d ls)) - 1).

(** The group name of the highlight effect and of [handleNodeClick]:
    [[
    let groupName = "Unknown";
    if (d.groupName) groupName = d.groupName;
    else if (data.group_names)
      groupName = data.group_names[d.group] || data.group_names[String(d.group)]
                  || `Group ${d.group}`;
    ]] *)
Definition groupName (d : Node) (group_names : option (gmap string string)) : string :=
  let from_names :=
    match group_names with
    | Some names =>
        let k := String_of_group (node_group d) in
        name_or names k (name_or names k (Group_label (node_group d)))
    | None => "Unknown"
    end in
  match node_groupName d with
  | Some s => if bool_decide (s = "") then from_names else s
  | None => from_names
  end.

End React.

(* ===================================================================== *)
(** ** Vocabulary of the properties                                       *)
(* ===================================================================== *)

Import Vanilla.

(** *** Graphs that follow [types.ts] *)

Definition is_str (v : prim) : bool :=
  match v with PStr _ => true | _ => false end.

Definition is_num (v : prim) : bool :=
  match v with PNum _ => true | _ => false end.

(** A node with a string [id] and a numeric [weight]. *)
Definition typed_node (n : Node) : bool :=
  is_str (node_id n) && is_num (node_weight n).

(** A link end that is a string id or a typed node object. *)
Definition typed_endpoint (e : endpoint) : bool :=
  match e with
  | EPrim v => is_str v
  | ENode n => typed_node n
  end.

Definition typed_link (l : Link) : bool :=
  typed_endpoint (source l) && typed_endpoint (target l) && is_num (link_weight l).

(** The link end names a node of [ns] by a non-empty id. *)
Definition names_node (ns : list Node) (e : endpoint) : bool :=
  truthy (endpoint_id e) && bool_decide (endpoint_id e ∈ node_id <$> ns).

Definition closed_link (ns : list Node) (l : Link) : bool :=
  names_node ns (source l) && names_node ns (target l).

(** A graph that follows [types.ts], and one whose links all name nodes. *)
Definition well_typed (ns : list Node) (ls : list Link) : bool :=
  forallb typed_node ns && forallb typed_link ls.

Definition links_closed (ns : list Node) (ls : list Link) : bool :=
  forallb (closed_link ns) ls.

Definition unique_ids (ns : list Node) : bool :=
  bool_decide (NoDup (node_id <$> ns)).

(** *** Round trip *)

(** The rounding precision of the Workbook format: half a hundredth. *)
Definition within_precision (a b : prim) : Prop :=
  ∃ x y : Qc, a = PNum x ∧ b = PNum y ∧ (Qabs (x - y) <= 1 # 200)%Q.

(** A decoded node against the original: same id, weight related by [R]. *)
Definition node_kept (R : prim → prim → Prop) (n n' : Node) : Prop :=
  node_id n' = node_id n ∧ R (node_weight n) (node_weight n').

(** A decoded link against the original: the raw ids of the same two ends,
    weight related by [R]. *)
Definition link_kept (R : prim → prim → Prop) (l l' : Link) : Prop :=
  source l' = EPrim (endpoint_id (source l)) ∧
  target l' = EPrim (endpoint_id (target l)) ∧
  R (link_weight l) (link_weight l').

(** Decoding [f] succeeds and gives the nodes and links of [G], one for
    one and in order, with weights related by [R]. *)
Definition decodes_to (ts : Qc → string) (pI : prim → option Z) (fn : string)
    (R : prim → prim → Prop) (f : import_file) (G : GraphData) : Prop :=
  ∃ g ns ls ns' ls',
    decode ts pI fn f = Ok g ∧
    nodes G = Some ns ∧ links G = Some ls ∧
    nodes g = Some ns' ∧ links g = Some ls' ∧
    Forall2 (node_kept R) ns ns' ∧ Forall2 (link_kept R) ls ls'.

Definition workbook_roundtrip ts pI fn (G : GraphData) : Prop :=
  ∃ wb, exportDataToExcel (Some G) = Ok (Some wb) ∧
        decodes_to ts pI fn within_precision (WorkbookFile wb) G.

Definition sqlite_roundtrip ts pI fn (G : GraphData) : Prop :=
  ∃ db, exportDataToSQLite ts (Some G) = Ok (Some db) ∧
        decodes_to ts pI fn eq (SQLiteFile db) G.

Definition plain_roundtrip ts pI fn (G : GraphData) : Prop :=
  ∃ t, exportData (Some G) = Some t ∧ decode ts pI fn (PlainFile t) = Ok G.

(** *** The logical graph of a typed graph *)

Definition str_of (v : prim) : string :=
  match v with PStr s => s | _ => "" end.

Definition num_of (v : prim) : Qc :=
  match v with PNum q => q | _ => 0%Qc end.

Definition logical_node (n : Node) : string * Qc :=
  (str_of (node_id n), num_of (node_weight n)).

Definition logical_link (l : Link) : string * string * Qc :=
  (str_of (endpoint_id (source l)), str_of (endpoint_id (target l)),
   num_of (link_weight l)).

(** Weights as the Workbook exporter writes them. *)
Definition rounded_node (n : string * Qc) : string * Qc := (n.1, toFixed2 n.2).

Definition rounded_link (l : string * string * Qc) : string * string * Qc :=
  (l.1, toFixed2 l.2).

(** The surrogate the EmbeddedDB exporter gives to a label: its entry in
    [nodeMap], and [0] for a label that has none. *)
Definition surrogate (ns : list Node) (s : string) : Z :=
  default 0%Z (nodeMap ns !! PStr s).

(** [meta], when it has [stats], has both counts, so that
    [stats.nodes.toString()] does not throw. *)
Definition meta_printable (mt : option Meta) : bool :=
  match mt with
  | Some m =>
      match meta_stats m with
      | Some st => negb (blank (stats_nodes st)) && negb (blank (stats_links st))
      | None => true
      end
  | None => true
  end.

(** *** Schema variants *)

(** Modelled from the spec: the two historical layouts of the node and
    link tables (§4.3).  Only the EmbeddedDB exporter of the Current layout
    and the Workbook exporter of the Legacy layout are in the sources; the
    other two writers are not.  A logical graph is a list of labelled,
    weighted nodes and a list of weighted links between labels; [sid]
    gives each label its integer surrogate. *)
Definition legacy_node_row (n : string * Qc) : list (string * prim) :=
  [("id", PStr n.1); ("weight", PNum n.2)].

Definition current_node_row (sid : string → Z) (n : string * Qc)
  : list (string * prim) :=
  [("id", num (sid n.1)); ("label", PStr n.1); ("weight", PNum n.2)].

Definition legacy_link_row (l : string * string * Qc) : list (string * prim) :=
  [("source", PStr l.1.1); ("target", PStr l.1.2); ("weight", PNum l.2)].

Definition current_link_row (sid : string → Z) (l : string * string * Qc)
  : list (string * prim) :=
  [("source", num (sid l.1.1)); ("target", num (sid l.1.2)); ("weight", PNum l.2)].

Definition legacy_workbook (ns : list (string * Qc)) (ls : list (string * string * Qc))
    (mt : option (list (gmap string prim))) : workbook :=
  {| Sheet_Nodes := Some (sheet_row ∘ legacy_node_row <$> ns);
     Sheet_Links := Some (sheet_row ∘ legacy_link_row <$> ls);
     Sheet_Meta := mt |}.

Definition current_workbook (sid : string → Z) (ns : list (string * Qc))
    (ls : list (string * string * Qc)) (mt : option (list (gmap string prim)))
  : workbook :=
  {| Sheet_Nodes := Some (sheet_row ∘ current_node_row sid <$> ns);
     Sheet_Links := Some (sheet_row ∘ current_link_row sid <$> ls);
     Sheet_Meta := mt |}.

(** A table whose columns and values are those of the given rows. *)
Definition table_of (cols : list string) (rows : list (list (string * prim))) : table :=
  {| columns := cols; values := (λ r, r.*2) <$> rows |}.

Definition legacy_database (ns : list (string * Qc)) (ls : list (string * string * Qc))
    (mt : option table) : database :=
  {| tbl_nodes := Some (table_of ["id"; "weight"] (legacy_node_row <$> ns));
     tbl_links := Some (table_of ["source"; "target"; "weight"] (legacy_link_row <$> ls));
     tbl_meta := mt |}.

Definition current_database (sid : string → Z) (ns : list (string * Qc))
    (ls : list (string * string * Qc)) (mt : option table) : database :=
  {| tbl_nodes := Some (table_of ["id"; "label"; "weight"] (current_node_row sid <$> ns));
     tbl_links := Some (table_of ["source"; "target"; "weight"]
                                 (current_link_row sid <$> ls));
     tbl_meta := mt |}.

(** Every link end of a decoded graph is a raw string id. *)
Definition raw_string_ends (g : GraphData) : Prop :=
  ∃ ls, links g = Some ls ∧
        Forall (λ l, ∃ s t, source l = EPrim (PStr s) ∧ target l = EPrim (PStr t)) ls.

(** *** The id-to-label map *)

(** A [Map] filled by [set(kf x, vf x)] for each [x] in turn. *)
Definition fold_set {X K V : Type} `{Countable K} (kf : X → K) (vf : X → V)
    (m0 : gmap K V) (xs : list X) : gmap K V :=
  foldl (λ m x, <[kf x := vf x]> m) m0 xs.

(** The column that supplies the node id under a schema decision. *)
Definition id_column (newSchema : bool) : string :=
  if newSchema then "label" else "id".

(** What both variants of a logical graph are to decode to: the nodes
    with their labels as ids, and the links both of whose ends are
    non-empty labels of nodes. *)
Definition decoded_node (n : string * Qc) : Node :=
  bare_node (PStr n.1) (PNum n.2).

Definition resolved_link (l : string * string * Qc) : Link :=
  bare_link (PStr l.1.1) (PStr l.1.2) (PNum l.2).

Definition link_resolves (ns : list (string * Qc)) (l : string * string * Qc) : bool :=
  bool_decide (l.1.1 ∈ ns.*1) && truthy (PStr l.1.1)
  && (bool_decide (l.1.2 ∈ ns.*1) && truthy (PStr l.1.2)).

Definition decoded_link (ns : list (string * Qc)) (l : string * string * Qc)
  : option Link :=
  if link_resolves ns l then Some (resolved_link l) else None.

(** Two files decode to one and the same graph, which has the nodes and
    the resolvable links of the logical graph and raw string ids at every
    link end. *)
Definition decode_same_graph (ts : Qc → string) (pI : prim → option Z) (fn : string)
    (ns : list (string * Qc)) (ls : list (string * string * Qc))
    (legacy current : import_file) : Prop :=
  ∃ g, decode ts pI fn legacy = Ok g ∧
       decode ts pI fn current = Ok g ∧
       nodes g = Some (decoded_node <$> ns) ∧
       links g = Some (omap (decoded_link ns) ls) ∧
       raw_string_ends g.

(** The nodes and links both tabular decoders extract, in one place. *)
Definition extract (newSchema : bool)
    (rows rawLinks : list (gmap string prim)) : list Node * list Link :=
  (node_of_row newSchema <$> rows,
   omap (link_of_row (idToLabelMap_of newSchema rows)) rawLinks).

(** *** Dangling links *)

(** A link row one of whose ends is not a key of the id-to-label map. *)
Definition dangling (m : gmap prim prim) (row : gmap string prim) : bool :=
  bool_decide (m !! get row "source" = None ∨ m !! get row "target" = None).

(** *** Nodes of a tabular decode *)

(** A node that carries nothing but [id] and [weight]. *)
Definition only_id_and_weight (n : Node) : Prop :=
  node_group n = None ∧ node_groupName n = None ∧
  node_x n = None ∧ node_y n = None.

(** *** Neighbours *)

(** Some link of [ls] joins the nodes with ids [a] and [b]. *)
Definition joined (ls : list Link) (a b : prim) : Prop :=
  ∃ l, l ∈ ls ∧
       ((endpoint_id (source l) = a ∧ endpoint_id (target l) = b) ∨
        (endpoint_id (source l) = b ∧ endpoint_id (target l) = a)).

(** *** Deletion *)

(** The link touches the node with id [i]. *)
Definition touches (i : prim) (l : Link) : Prop :=
  endpoint_id (source l) = i ∨ endpoint_id (target l) = i.

#[global] Instance touches_dec (i : prim) (l : Link) : Decision (touches i l).
Proof. unfold touches. apply _. Defined.

(** Neither end of the link is [null]. *)
Definition no_null_end (l : Link) : bool :=
  bool_decide (source l ≠ EPrim PNull) && bool_decide (target l ≠ EPrim PNull).

(** *** Layout *)

(** The simulation after a series of drag gestures on the React page. *)
Definition after_drags {engine : Type} `{!D3.Engine engine}
    (evs : list React.drag_event) (sim : D3.simulation engine)
  : D3.simulation engine :=
  foldl (λ s ev, React.drag ev s) sim evs.

(** The simulation after a series of drag gestures on the vanilla page. *)
Definition after_vanilla_drags {engine : Type} `{!D3.Engine engine}
    (evs : list Vanilla.drag_event) (sim : D3.simulation engine)
  : D3.simulation engine :=
  foldl (λ s ev, Vanilla.drag ev s) sim evs.

(** "The engine never free-runs after the step budget": whatever is
    dragged after the layout pass, the timer of the simulation stays off. *)
Definition never_free_runs {engine : Type} `{!D3.Engine engine}
    (sim : D3.simulation engine) : Prop :=
  ∀ evs, D3.timer_running (after_drags evs sim) = false.

(** *** Filtering *)

(** A link end that is neither [undefined] nor [null]. *)
Definition defined_end (e : endpoint) : bool :=
  match e with
  | EPrim v => negb (blank v)
  | ENode _ => true
  end.

Definition ends_defined (l : Link) : bool :=
  defined_end (source l) && defined_end (target l).

(** No node has [undefined] for id. *)
Definition ids_defined (ns : list Node) : bool :=
  forallb (λ n, negb (bool_decide (node_id n = PUndef))) ns.

(** Both ends of the link are ids of the list. *)
Definition joins (ids : list prim) (l : Link) : Prop :=
  endpoint_id (source l) ∈ ids ∧ endpoint_id (target l) ∈ ids.

#[global] Instance joins_dec (ids : list prim) (l : Link) : Decision (joins ids l).
Proof. unfold joins. apply _. Defined.

(** The first [limit] nodes of a graph and the links among them. *)
Definition top_graph (limit : Z) (ns : list Node) (ls : list Link)
    (mt : option Meta) (gn : option (gmap string string)) : GraphData :=
  {| nodes := Some (slice0 limit ns);
     links := Some (filter (joins (node_id <$> slice0 limit ns)) ls);
     meta := mt; group_names := gn |}.

(** *** Links seen by the encoders *)

(** Two links with the same end ids and the same weight: one may carry
    raw ids where the other carries the node objects d3 put in. *)
Definition same_link (l l' : Link) : Prop :=
  endpoint_id (source l) = endpoint_id (source l') ∧
  endpoint_id (target l) = endpoint_id (target l') ∧
  link_weight l = link_weight l'.

(** Both ends have a truthy id. *)
Definition named_ends (l : Link) : bool :=
  truthy (endpoint_id (source l)) && truthy (endpoint_id (target l)).

(** The [id] column of a nodes table. *)
Definition id_cells (t : table) : list prim :=
  (λ row, default PUndef (row !! 0%nat)) <$> values t.

(** A link end that the Workbook exporter can put in a cell: a raw value
    other than [null], or a node object with a truthy id. *)
Definition cell_end (e : endpoint) : bool :=
  match e with
  | EPrim v => negb (bool_decide (v = PNull))
  | ENode nd => truthy (node_id nd)
  end.

(** A link that the Workbook exporter can write. *)
Definition cell_link (l : Link) : bool :=
  cell_end (source l) && cell_end (target l) && is_num (link_weight l).

(** *** Sentences of the context search *)

(** A non-empty run of units that are no terminators, then a non-empty
    run of terminators. *)
Definition sentence_shape {char : Type} (terminator : char → bool) (s : list char)
  : Prop :=
  ∃ body tail, s = (body ++ tail)%list ∧ body ≠ [] ∧ tail ≠ [] ∧
               Forall (λ c, terminator c = false) body ∧
               Forall (λ c, terminator c = true) tail.

(** The search state after a series of clicks on the page buttons. *)
Definition after_clicks {char : Type} (deltas : list Z) (st : search_state (char := char))
  : search_state :=
  foldl (λ s delta, changeContextPage delta s) st deltas.

(* ===================================================================== *)
(** ** Sample data                                                        *)
(* ===================================================================== *)

Module Sample.

(** Stand-ins for the builtins and the file name. *)
Definition toString (q : Qc) : string := "0".
Definition parseInt (v : prim) : option Z := None.
Definition file : string := "graph.xlsx".

Definition third : Qc := Q2Qc (1 # 3).
Definition one : Qc := Q2Qc 1.
Definition two : Qc := Q2Qc 2.

(** The graph of the scenarios: [A-B] of weight 1, [B-C] of weight 2, the
    second link already resolved by d3 at its source. *)
Definition A : Node :=
  {| node_id := PStr "A"; node_weight := PNum third; node_group := Some 0%Z;
     node_groupName := Some "people"; node_x := Some one; node_y := Some two |}.
Definition B : Node :=
  {| node_id := PStr "B"; node_weight := PNum one; node_group := Some 0%Z;
     node_groupName := None; node_x := None; node_y := None |}.
Definition C : Node :=
  {| node_id := PStr "C"; node_weight := PNum two; node_group := Some 1%Z;
     node_groupName := None; node_x := None; node_y := None |}.

Definition AB : Link :=
  {| source := EPrim (PStr "A"); target := EPrim (PStr "B");
     link_weight := PNum one; link_value := None |}.
Definition BC : Link :=
  {| source := ENode B; target := EPrim (PStr "C");
     link_weight := PNum two; link_value := None |}.

Definition abc_meta : option Meta :=
  Some {| meta_file := PStr "book.txt"; meta_duration := PStr "1.2s";
          meta_stats := Some {| stats_nodes := num 3; stats_links := num 2 |} |}.

Definition abc_group_names : option (gmap string string) :=
  Some {["0" := "people"; "1" := "places"]}.

Definition abc : GraphData :=
  {| nodes := Some [A; B; C]; links := Some [AB; BC];
     meta := abc_meta; group_names := abc_group_names |}.

(** A graph with a link to a node it does not have. *)
Definition AZ : Link :=
  {| source := EPrim (PStr "A"); target := EPrim (PStr "Z");
     link_weight := PNum one; link_value := None |}.

Definition dangling_graph : GraphData :=
  {| nodes := Some [A]; links := Some [AZ]; meta := None; group_names := None |}.

(** A graph one of whose nodes has the empty string as id, a graph with
    one id twice, and a graph whose [meta] has [stats] without counts. *)
Definition E : Node :=
  {| node_id := PStr ""; node_weight := PNum one; node_group := None;
     node_groupName := None; node_x := None; node_y := None |}.

Definition EB : Link :=
  {| source := EPrim (PStr ""); target := EPrim (PStr "B");
     link_weight := PNum one; link_value := None |}.

Definition empty_id_graph : GraphData :=
  {| nodes := Some [E; B]; links := Some [EB]; meta := None; group_names := None |}.

Definition twice_graph : GraphData :=
  {| nodes := Some [A; A]; links := Some []; meta := None; group_names := None |}.

Definition bare_stats_graph : GraphData :=
  {| nodes := Some [A]; links := Some [];
     meta := Some {| meta_file := PStr "book.txt"; meta_duration := PUndef;
                     meta_stats := Some {| stats_nodes := PUndef;
                                           stats_links := PUndef |} |};
     group_names := None |}.

(** A Legacy workbook whose ids are the numbers 0 and 1, with one link
    between them. *)
Definition numbered_nodes : list (gmap string prim) :=
  [ sheet_row [("id", num 0); ("weight", PNum one)];
    sheet_row [("id", num 1); ("weight", PNum one)] ].

Definition numbered_links : list (gmap string prim) :=
  [ sheet_row [("source", num 0); ("target", num 1); ("weight", PNum one)] ].

Definition numbered_workbook : workbook :=
  {| Sheet_Nodes := Some numbered_nodes; Sheet_Links := Some numbered_links;
     Sheet_Meta := None |}.

(** A Current database in which the node with surrogate 1 has the empty
    string as its label, with one link from it to ["B"]. *)
Definition empty_label_nodes : table :=
  {| columns := ["id"; "label"; "weight"];
     values := [ [num 1; PStr ""; PNum one]; [num 2; PStr "B"; PNum one] ] |}.

Definition empty_label_links : table :=
  {| columns := ["source"; "target"; "weight"];
     values := [ [num 1; num 2; PNum one] ] |}.

Definition empty_label_database : database :=
  {| tbl_nodes := Some empty_label_nodes; tbl_links := Some empty_label_links;
     tbl_meta := None |}.

(** A Current workbook whose first node row has a blank label cell. *)
Definition blank_first_label : workbook :=
  {| Sheet_Nodes :=
       Some [ sheet_row [("id", num 1); ("label", PUndef); ("weight", PNum one)];
              sheet_row [("id", num 2); ("label", PStr "B"); ("weight", PNum one)] ];
     Sheet_Links :=
       Some [ sheet_row [("source", num 1); ("target", num 2); ("weight", PNum one)] ];
     Sheet_Meta := None |}.

(** A logical graph and surrogates for its labels. *)
Definition logical_nodes : list (string * Qc) :=
  [("A", third); ("B", one); ("C", two)].
Definition logical_links : list (string * string * Qc) :=
  [("A", "B", one); ("B", "C", two); ("A", "Z", one)].
Definition sid (s : string) : Z := Z.pos (encode s).

(** A text without [nodes]. *)
Definition no_nodes : GraphData :=
  {| nodes := None; links := Some []; meta := None; group_names := None |}.

(** The React page with the scenario graph loaded and [B] selected. *)
Definition loaded : React.app :=
  {| React.graphData := Some abc; React.filteredData := Some abc;
     React.nodeCount := 3; React.selectedNode := Some B;
     React.contextOpen := true; React.stats := None |}.

(** What the vanilla page draws for the nodes [A], [B], [C] and the one
    link [B-C]: [A] has no link. *)
Definition drawn : scene :=
  {| drawn_nodes := [A; B; C]; drawn_links := [BC];
     node_opacity := [opaque_; opaque_; opaque_]; link_opacity := [opaque_] |}.

(** An engine that keeps the nodes where they are. *)
Definition still : D3.Engine (list Node) :=
  {| D3.e_create := λ _ _, [];
     D3.e_load := λ ns _ _, ns;
     D3.e_step := λ e, e;
     D3.e_placed := λ e, e;
     D3.e_fix := λ _ _ e, e;
     D3.e_release := λ _ e, e;
     D3.e_load_length := λ _ _ _, eq_refl;
     D3.e_step_length := λ _, eq_refl |}.

(** The second link of the scenario as a file has it, with raw ids. *)
Definition BC_raw : Link :=
  {| source := EPrim (PStr "B"); target := EPrim (PStr "C");
     link_weight := PNum two; link_value := None |}.

(** The vanilla page showing the scenario graph. *)
Definition showing : page :=
  {| globalGraphData := Some abc; currentFile := PStr "book.txt";
     slider_max := 3; slider_value := 3 |}.

(** The [meta] of the scenario graph. *)
Definition book_meta : Meta :=
  {| meta_file := PStr "book.txt"; meta_duration := PStr "1.2s";
     meta_stats := Some {| stats_nodes := num 3; stats_links := num 2 |} |}.

End Sample.

(* ===================================================================== *)
(** ** Facts about the helpers                                            *)
(* ===================================================================== *)

Section Helpers.

Lemma mapM_ok_fmap {A B} (f : A → outcome B) (g : A → B) (xs : list A) :
  Forall (λ x, f x = Ok (g x)) xs → mapM f xs = Ok (g <$> xs).
Proof.
  induction 1 as [|x xs Hx _ IH]; simpl; [done|].
  by rewrite Hx, IH.
Qed.

Lemma mapM_ok_inv {A B} (f : A → outcome B) (xs : list A) (ys : list B) :
  mapM f xs = Ok ys → Forall2 (λ x y, f x = Ok y) xs ys.
Proof.
  revert ys. induction xs as [|x xs IH]; intros ys; simpl.
  - intros [= <-]. constructor.
  - destruct (f x) as [y|] eqn:Hy; simpl; [|done].
    destruct (mapM f xs) as [ys'|] eqn:Hys; simpl; [|done].
    intros [= <-]. constructor; auto.
Qed.

Lemma filterM_ok_filter {A} (p : A → outcome bool) (q : A → bool) (xs : list A) :
  Forall (λ x, p x = Ok (q x)) xs → filterM p xs = Ok (filter (λ x, q x = true) xs).
Proof.
  induction 1 as [|x xs Hx _ IH]; simpl; [done|].
  rewrite Hx, IH. simpl. rewrite filter_cons.
  destruct (q x); simpl; by repeat case_decide.
Qed.

Lemma omap_all_Some {A B} (f : A → option B) (g : A → B) (xs : list A) :
  Forall (λ x, f x = Some (g x)) xs → omap f xs = g <$> xs.
Proof.
  induction 1 as [|x xs Hx _ IH]; csimpl; [done|].
  rewrite Hx. csimpl. by rewrite IH.
Qed.

(** What [get] finds in a map filled by successive [set] calls. *)
Section FoldSet.
Context {X K V : Type} `{Countable K} (kf : X → K) (vf : X → V).

Lemma fold_set_notin (xs : list X) (m0 : gmap K V) (k : K) :
  k ∉ kf <$> xs → fold_set kf vf m0 xs !! k = m0 !! k.
Proof.
  revert m0. induction xs as [|x xs IH]; intros m0 Hk; simpl; [done|].
  rewrite fmap_cons, not_elem_of_cons in Hk. destruct Hk as [Hne Hk].
  unfold fold_set in *. simpl. rewrite IH by done.
  by rewrite lookup_insert_ne.
Qed.

Lemma fold_set_in (xs : list X) (m0 : gmap K V) (x : X) :
  (∀ a b, a ∈ xs → b ∈ xs → kf a = kf b → vf a = vf b) →
  x ∈ xs → fold_set kf vf m0 xs !! kf x = Some (vf x).
Proof.
  revert m0 x. induction xs as [|y xs IH]; intros m0 x Hfun Hx.
  - by apply elem_of_nil in Hx.
  - unfold fold_set in *. simpl.
    destruct (decide (kf x ∈ kf <$> xs)) as [Hin|Hnin].
    + apply list_elem_of_fmap in Hin as (z & Hz & Hzin).
      assert (vf x = vf z) as ->.
      { apply Hfun; [done|by right|done]. }
      rewrite Hz. apply (IH _ z); [|done].
      intros a b Ha Hb. apply Hfun; by right.
    + pose proof (fold_set_notin xs (<[kf y:=vf y]> m0) (kf x) Hnin) as Hn.
      unfold fold_set in Hn. rewrite Hn.
      apply elem_of_cons in Hx as [->|Hx].
      * by rewrite lookup_insert_eq.
      * exfalso. apply Hnin. apply list_elem_of_fmap. eauto.
Qed.

Lemma fold_set_inv (xs : list X) (m0 : gmap K V) (k : K) (v : V) :
  fold_set kf vf m0 xs !! k = Some v →
  (∃ x, x ∈ xs ∧ kf x = k ∧ vf x = v) ∨ m0 !! k = Some v.
Proof.
  revert m0. induction xs as [|y xs IH]; intros m0; unfold fold_set in *; simpl.
  - auto.
  - intros Hl. apply IH in Hl as [(x & Hx & Hk & Hv)|Hl].
    + left. exists x. split; [by right|done].
    + destruct (decide (kf y = k)) as [<-|Hne].
      * rewrite lookup_insert_eq in Hl. injection Hl as <-.
        left. exists y. split; [by left|done].
      * rewrite lookup_insert_ne in Hl by done. by right.
Qed.

End FoldSet.

(** [num] tells integers apart. *)
Lemma num_inj (a b : Z) : num a = num b → a = b.
Proof.
  unfold num. intros [= Heq].
  assert (inject_Z a == inject_Z b)%Q as Hq.
  { rewrite <- (Qred_correct (inject_Z a)), <- (Qred_correct (inject_Z b)).
    by rewrite Heq. }
  unfold Qeq, inject_Z in Hq. simpl in Hq. lia.
Qed.

Lemma truthy_num (z : Z) : truthy (num z) = negb (z =? 0)%Z.
Proof.
  unfold truthy, num. f_equal.
  destruct (Z.eqb_spec z 0) as [->|Hne].
  - apply bool_decide_eq_true. by apply Qc_is_canon.
  - apply bool_decide_eq_false. intros Heq.
    change 0%Qc with (Q2Qc (inject_Z 0)) in Heq.
    apply Hne, num_inj. unfold num. by rewrite Heq.
Qed.

End Helpers.

(* ===================================================================== *)
(** ** The tabular decoders                                               *)
(* ===================================================================== *)

Section DecoderFacts.

Variable ts : Qc → string.
Variable pI : prim → option Z.
Variable fn : string.

Lemma node_of_row_column (b : bool) (row : gmap string prim) :
  node_of_row b row = bare_node (get row (id_column b)) (get row "weight").
Proof. by destruct b. Qed.

Lemma idToLabelMap_of_fold_set (b : bool) (rows : list (gmap string prim)) :
  idToLabelMap_of b rows
  = fold_set (λ row, get row "id") (λ row, get row (id_column b)) ∅ rows.
Proof.
  unfold idToLabelMap_of, fold_set. generalize (∅ : gmap prim prim).
  induction rows as [|row rows IH]; intros m; simpl; [done|].
  rewrite IH. by destruct b.
Qed.

Lemma nodes_only_id_and_weight (b : bool) (rows : list (gmap string prim)) :
  Forall only_id_and_weight (node_of_row b <$> rows).
Proof.
  apply Forall_fmap, list.Forall_forall. intros row _.
  by destruct b.
Qed.

(** A row written by [json_to_sheet] has no other key than those of the
    object literal. *)
Lemma dom_sheet_row (kvs : list (string * prim)) :
  dom (sheet_row kvs) ⊆ list_to_set kvs.*1.
Proof.
  unfold sheet_row.
  assert (∀ m0 : gmap string prim,
            dom (foldl (λ r kv, if blank kv.2 then r else <[kv.1:=kv.2]> r) m0 kvs)
            ⊆ dom m0 ∪ list_to_set kvs.*1) as Hgen.
  { induction kvs as [|[k v] kvs IH]; intros m0; simpl; [set_solver|].
    etrans; [apply IH|]. destruct (blank v); [set_solver|].
    rewrite dom_insert. set_solver. }
  etrans; [apply Hgen|]. rewrite dom_empty. set_solver.
Qed.

(** When every label held by the map is truthy, the link loop drops a row
    exactly when it is dangling. *)
Lemma link_of_row_dangling (m : gmap prim prim) (row : gmap string prim) :
  map_Forall (λ _ v, truthy v = true) m →
  link_of_row m row = None ↔ dangling m row = true.
Proof.
  intros Hm. unfold link_of_row, dangling, idToLabelMap_get.
  rewrite bool_decide_eq_true.
  destruct (m !! get row "source") as [s|] eqn:Hs;
    destruct (m !! get row "target") as [t|] eqn:Ht; simpl.
  - rewrite (Hm _ _ Hs), (Hm _ _ Ht). simpl. split; [done|]. by intros [?|?].
  - rewrite andb_false_r. split; auto.
  - split; auto.
  - split; auto.
Qed.

Lemma links_kept_when_labels_truthy (m : gmap prim prim)
    (rows : list (gmap string prim)) :
  map_Forall (λ _ v, truthy v = true) m →
  length (omap (link_of_row m) rows)
  = (length rows - length (filter (λ row, dangling m row = true) rows))%nat.
Proof.
  intros Hm. induction rows as [|row rows IH]; csimpl; [done|].
  rewrite filter_cons.
  pose proof (link_of_row_dangling m row Hm) as Hd.
  pose proof (length_filter (λ row, dangling m row = true) rows) as Hle.
  destruct (link_of_row m row) as [l|] eqn:Hl.
  - case_decide as Hdg; [apply Hd in Hdg; done|]. simpl. lia.
  - case_decide as Hdg; [|exfalso; apply Hdg, Hd; done]. simpl. lia.
Qed.

(** C9.  The Workbook decoder settles the schema variant on the first node
    row alone: the whole "Nodes" table is read as Current exactly when that
    row object has a [label] key, and every row, and the id-to-label map
    the links go through, is read under that one decision; so with no
    [label] key in the first row every node id comes from the [id] column,
    whatever the later rows hold. *)
Theorem workbook_schema_decided_by_first_row
    (row0 : gmap string prim) (rest rawLinks : list (gmap string prim))
    (metaSheet : option (list (gmap string prim))) :
  let rows := row0 :: rest in
  let idcol := if bool_decide (is_Some (row0 !! "label")) then "label" else "id" in
  ∃ g,
    decodeWorkbook ts pI fn
      {| Sheet_Nodes := Some rows; Sheet_Links := Some rawLinks;
         Sheet_Meta := metaSheet |} = Ok g ∧
    nodes g = Some ((λ row, bare_node (get row idcol) (get row "weight")) <$> rows) ∧
    links g =
      Some (omap (link_of_row
                    (fold_set (λ row, get row "id") (λ row, get row idcol) ∅ rows))
                 rawLinks).
Proof.
  intros rows idcol. unfold decodeWorkbook.
  cbn [Sheet_Nodes Sheet_Links Sheet_Meta isNewSchema]. fold rows.
  eexists. split; [reflexivity|]. cbn [nodes links].
  rewrite idToLabelMap_of_fold_set.
  change idcol with (id_column (bool_decide (is_Some (row0 !! "label")))).
  split; [|done].
  f_equal. apply list_fmap_ext. intros _ row _. apply node_of_row_column.
Qed.


End DecoderFacts.

(* ===================================================================== *)
(** ** The two schema variants                                            *)
(* ===================================================================== *)

Section SchemaFacts.

Variable ts : Qc → string.
Variable pI : prim → option Z.
Variable fn : string.

Lemma fold_set_fmap {X Y K V : Type} `{Countable K} (g : X → Y) (kf : Y → K)
    (vf : Y → V) (m0 : gmap K V) (xs : list X) :
  fold_set kf vf m0 (g <$> xs) = fold_set (kf ∘ g) (vf ∘ g) m0 xs.
Proof.
  unfold fold_set. revert m0.
  induction xs as [|x xs IH]; intros m0; simpl; [done|]. apply IH.
Qed.

Lemma fold_set_ext {X K V : Type} `{Countable K} (kf kf' : X → K)
    (vf vf' : X → V) (m0 : gmap K V) (xs : list X) :
  (∀ x, kf x = kf' x) → (∀ x, vf x = vf' x) →
  fold_set kf vf m0 xs = fold_set kf' vf' m0 xs.
Proof.
  intros Hk Hv. unfold fold_set. revert m0.
  induction xs as [|x xs IH]; intros m0; simpl; [done|].
  by rewrite Hk, Hv, IH.
Qed.

Lemma omap_fmap_ext {X Y Z : Type} (g : X → Y) (f : Y → option Z)
    (h : X → option Z) (xs : list X) :
  (∀ x, f (g x) = h x) → omap f (g <$> xs) = omap h xs.
Proof.
  intros Hfg. induction xs as [|x xs IH]; csimpl; [done|].
  by rewrite Hfg, IH.
Qed.

(** The cells of the four kinds of row. *)
Lemma legacy_node_row_cells (n : string * Qc) :
  let row := sheet_row (legacy_node_row n) in
  get row "id" = PStr n.1 ∧ get row "weight" = PNum n.2 ∧ row !! "label" = None.
Proof. destruct n as [s w]. by repeat split. Qed.

Lemma current_node_row_cells (sid : string → Z) (n : string * Qc) :
  let row := sheet_row (current_node_row sid n) in
  get row "id" = num (sid n.1) ∧ get row "label" = PStr n.1 ∧
  get row "weight" = PNum n.2 ∧ is_Some (row !! "label").
Proof. destruct n as [s w]. repeat split. by eexists. Qed.

Lemma legacy_link_row_cells (l : string * string * Qc) :
  let row := sheet_row (legacy_link_row l) in
  get row "source" = PStr l.1.1 ∧ get row "target" = PStr l.1.2 ∧
  get row "weight" = PNum l.2.
Proof. destruct l as [[s t] w]. by repeat split. Qed.

Lemma current_link_row_cells (sid : string → Z) (l : string * string * Qc) :
  let row := sheet_row (current_link_row sid l) in
  get row "source" = num (sid l.1.1) ∧ get row "target" = num (sid l.1.2) ∧
  get row "weight" = PNum l.2.
Proof. destruct l as [[s t] w]. by repeat split. Qed.

(** The rows the SQL decoder assembles are those of the workbook. *)
Lemma rowObj_legacy_node (n : string * Qc) :
  rowObj ["id"; "weight"] (legacy_node_row n).*2 = sheet_row (legacy_node_row n).
Proof. by destruct n. Qed.

Lemma rowObj_current_node (sid : string → Z) (n : string * Qc) :
  rowObj ["id"; "label"; "weight"] (current_node_row sid n).*2
  = sheet_row (current_node_row sid n).
Proof. by destruct n. Qed.

Lemma rowObj_legacy_link (l : string * string * Qc) :
  rowObj ["source"; "target"; "weight"] (legacy_link_row l).*2
  = sheet_row (legacy_link_row l).
Proof. by destruct l as [[??]?]. Qed.

Lemma rowObj_current_link (sid : string → Z) (l : string * string * Qc) :
  rowObj ["source"; "target"; "weight"] (current_link_row sid l).*2
  = sheet_row (current_link_row sid l).
Proof. by destruct l as [[??]?]. Qed.

(** The id-to-label map of a Legacy node table is the identity on the
    labels. *)
Lemma legacy_map_lookup (ns : list (string * Qc)) (s : string) :
  idToLabelMap_of false (sheet_row ∘ legacy_node_row <$> ns) !! PStr s
  = if bool_decide (s ∈ ns.*1) then Some (PStr s) else None.
Proof.
  rewrite idToLabelMap_of_fold_set, fold_set_fmap.
  rewrite (fold_set_ext _ (λ n, PStr n.1) _ (λ n, PStr n.1));
    [| intros n; apply legacy_node_row_cells ..].
  case_bool_decide as Hin.
  - apply list_elem_of_fmap in Hin as ([s' w] & -> & Hin).
    apply (fold_set_in (λ n : string * Qc, PStr n.1) (λ n, PStr n.1) ns ∅ (s', w));
      [|done].
    by intros a b _ _ [= ->].
  - destruct (fold_set _ _ _ ns !! PStr s) as [v|] eqn:Hl; [|done].
    apply fold_set_inv in Hl as [(x & Hx & [= <-] & _)|Hl]; [|done].
    exfalso. apply Hin. apply list_elem_of_fmap. eauto.
Qed.

(** The id-to-label map of a Current node table sends the surrogate of a
    label back to the label. *)
Lemma current_map_lookup (sid : string → Z) (ns : list (string * Qc)) (s : string) :
  (∀ a b, a ∈ ns.*1 → sid a = sid b → a = b) →
  idToLabelMap_of true (sheet_row ∘ current_node_row sid <$> ns) !! num (sid s)
  = if bool_decide (s ∈ ns.*1) then Some (PStr s) else None.
Proof.
  intros Hinj.
  rewrite idToLabelMap_of_fold_set, fold_set_fmap.
  rewrite (fold_set_ext _ (λ n, num (sid n.1)) _ (λ n, PStr n.1));
    [| intros n; apply current_node_row_cells ..].
  case_bool_decide as Hin.
  - apply list_elem_of_fmap in Hin as ([s' w] & -> & Hin).
    apply (fold_set_in (λ n : string * Qc, num (sid n.1)) (λ n, PStr n.1) ns ∅ (s', w));
      [|done].
    intros a b Ha _ Heq. apply num_inj in Heq. f_equal.
    apply Hinj; [|done]. apply list_elem_of_fmap. eauto.
  - destruct (fold_set _ _ _ ns !! num (sid s)) as [v|] eqn:Hl; [|done].
    apply fold_set_inv in Hl as [(x & Hx & Heq & _)|Hl]; [|done].
    exfalso. apply Hin. apply num_inj in Heq.
    rewrite <- (Hinj x.1 s); [|apply list_elem_of_fmap; eauto|done].
    apply list_elem_of_fmap. eauto.
Qed.

Lemma legacy_link_decoded (ns : list (string * Qc)) (l : string * string * Qc) :
  link_of_row (idToLabelMap_of false (sheet_row ∘ legacy_node_row <$> ns))
              (sheet_row (legacy_link_row l))
  = decoded_link ns l.
Proof.
  unfold link_of_row, idToLabelMap_get, decoded_link, link_resolves.
  destruct (legacy_link_row_cells l) as (-> & -> & ->).
  rewrite !legacy_map_lookup.
  destruct (bool_decide (l.1.1 ∈ ns.*1)), (bool_decide (l.1.2 ∈ ns.*1));
    cbn; rewrite ?andb_false_r; done.
Qed.

Lemma current_link_decoded (sid : string → Z) (ns : list (string * Qc))
    (l : string * string * Qc) :
  (∀ a b, a ∈ ns.*1 → sid a = sid b → a = b) →
  link_of_row (idToLabelMap_of true (sheet_row ∘ current_node_row sid <$> ns))
              (sheet_row (current_link_row sid l))
  = decoded_link ns l.
Proof.
  intros Hinj.
  unfold link_of_row, idToLabelMap_get, decoded_link, link_resolves.
  destruct (current_link_row_cells sid l) as (-> & -> & ->).
  rewrite !current_map_lookup by done.
  destruct (bool_decide (l.1.1 ∈ ns.*1)), (bool_decide (l.1.2 ∈ ns.*1));
    cbn; rewrite ?andb_false_r; done.
Qed.

Lemma legacy_nodes_decoded (ns : list (string * Qc)) :
  node_of_row false <$> (sheet_row ∘ legacy_node_row <$> ns) = decoded_node <$> ns.
Proof.
  rewrite <- list_fmap_compose. apply list_fmap_ext. intros _ n _. simpl.
  unfold decoded_node.
  by destruct (legacy_node_row_cells n) as (-> & -> & _).
Qed.

Lemma current_nodes_decoded (sid : string → Z) (ns : list (string * Qc)) :
  node_of_row true <$> (sheet_row ∘ current_node_row sid <$> ns) = decoded_node <$> ns.
Proof.
  rewrite <- list_fmap_compose. apply list_fmap_ext. intros _ n _. simpl.
  unfold decoded_node.
  by destruct (current_node_row_cells sid n) as (_ & -> & -> & _).
Qed.

(** The first row decides: Legacy rows have no [label] key, Current rows
    have one. *)
Lemma isNewSchema_legacy (ns : list (string * Qc)) :
  isNewSchema (sheet_row ∘ legacy_node_row <$> ns) = false.
Proof.
  destruct ns as [|n ns]; [done|]. simpl.
  apply bool_decide_eq_false. intros Hs.
  destruct (legacy_node_row_cells n) as (_ & _ & Hn).
  rewrite Hn in Hs. by destruct Hs.
Qed.

Lemma isNewSchema_current (sid : string → Z) (n : string * Qc)
    (ns : list (string * Qc)) :
  isNewSchema (sheet_row ∘ current_node_row sid <$> n :: ns) = true.
Proof.
  rewrite fmap_cons. cbn [isNewSchema].
  apply bool_decide_eq_true. apply current_node_row_cells.
Qed.

Lemma extract_legacy (ns : list (string * Qc)) (ls : list (string * string * Qc)) :
  extract false (sheet_row ∘ legacy_node_row <$> ns) (sheet_row ∘ legacy_link_row <$> ls)
  = (decoded_node <$> ns, omap (decoded_link ns) ls).
Proof.
  unfold extract. rewrite legacy_nodes_decoded. f_equal.
  apply omap_fmap_ext. intros l. apply legacy_link_decoded.
Qed.

Lemma extract_current (sid : string → Z) (ns : list (string * Qc))
    (ls : list (string * string * Qc)) :
  (∀ a b, a ∈ ns.*1 → sid a = sid b → a = b) →
  extract (isNewSchema (sheet_row ∘ current_node_row sid <$> ns))
          (sheet_row ∘ current_node_row sid <$> ns)
          (sheet_row ∘ current_link_row sid <$> ls)
  = (decoded_node <$> ns, omap (decoded_link ns) ls).
Proof.
  intros Hinj. destruct ns as [|n ns].
  - unfold extract. simpl. f_equal.
    induction ls as [|l ls IH]; csimpl; [done|]. rewrite IH.
    unfold link_of_row, idToLabelMap_get, idToLabelMap_of. simpl.
    unfold decoded_link, link_resolves. simpl.
    done.
  - rewrite isNewSchema_current.
    unfold extract. rewrite current_nodes_decoded. f_equal.
    apply omap_fmap_ext. intros l. by apply current_link_decoded.
Qed.

Lemma extract_current_label (sid : string → Z) (ns : list (string * Qc))
    (ls : list (string * string * Qc)) :
  (∀ a b, a ∈ ns.*1 → sid a = sid b → a = b) →
  extract true (sheet_row ∘ current_node_row sid <$> ns)
          (sheet_row ∘ current_link_row sid <$> ls)
  = (decoded_node <$> ns, omap (decoded_link ns) ls).
Proof.
  intros Hinj. rewrite <- (extract_current sid ns ls Hinj).
  destruct ns as [|n ns]; [done|]. by rewrite isNewSchema_current.
Qed.

Lemma sql_rows (cols : list string) (f : list (string * prim) → gmap string prim)
    (rows : list (list (string * prim))) :
  (∀ r, r ∈ rows → rowObj cols r.*2 = f r) →
  rowObj cols <$> values (table_of cols rows) = f <$> rows.
Proof.
  intros Hf. unfold table_of. cbn [values].
  rewrite <- list_fmap_compose. apply list_fmap_ext.
  intros i r Hr. apply Hf. by eapply list_elem_of_lookup_2.
Qed.

Lemma sql_rows_map {X} (cols : list string) (g : X → list (string * prim))
    (xs : list X) :
  (∀ x, rowObj cols (g x).*2 = sheet_row (g x)) →
  rowObj cols <$> values (table_of cols (g <$> xs)) = sheet_row ∘ g <$> xs.
Proof.
  intros Hg. rewrite (sql_rows cols sheet_row).
  - by rewrite <- list_fmap_compose.
  - intros r Hr. apply list_elem_of_fmap in Hr as (x & -> & _). apply Hg.
Qed.

Lemma decoded_links_raw (ns : list (string * Qc)) (ls : list (string * string * Qc)) :
  Forall (λ l, ∃ s t, source l = EPrim (PStr s) ∧ target l = EPrim (PStr t))
         (omap (decoded_link ns) ls).
Proof.
  induction ls as [|l ls IH]; csimpl; [constructor|].
  unfold decoded_link at 1. destruct (link_resolves ns l); [|done].
  constructor; [|done]. by eexists _, _.
Qed.

(** C2.  A Legacy table (labels in the [id] column, no [label] column) and
    a Current table (integer surrogates in [id], labels in [label], links
    by surrogate) of one logical graph decode, in the Workbook and in the
    EmbeddedDB format alike, to one and the same graph: its nodes carry
    the labels as ids, and every link end is a raw string id resolved
    through the id-to-label map.  Surrogates are any integers that tell
    the labels of the nodes apart. *)
Theorem schema_variants_decode_alike (sid : string → Z)
    (ns : list (string * Qc)) (ls : list (string * string * Qc))
    (metaSheet : option (list (gmap string prim))) (metaTable : option table) :
  (∀ a b, a ∈ ns.*1 → sid a = sid b → a = b) →
  decode_same_graph ts pI fn ns ls
    (WorkbookFile (legacy_workbook ns ls metaSheet))
    (WorkbookFile (current_workbook sid ns ls metaSheet)) ∧
  decode_same_graph ts pI fn ns ls
    (SQLiteFile (legacy_database ns ls metaTable))
    (SQLiteFile (current_database sid ns ls metaTable)).
Proof.
  intros Hinj.
  pose proof (extract_legacy ns ls) as Hleg.
  pose proof (extract_current sid ns ls Hinj) as Hcur.
  pose proof (extract_current_label sid ns ls Hinj) as Hlab.
  unfold extract in Hleg, Hcur, Hlab.
  injection Hleg as Hleg1 Hleg2. injection Hcur as Hcur1 Hcur2.
  injection Hlab as Hlab1 Hlab2.
  unfold decode_same_graph. cbn [decode].
  split.
  - unfold decodeWorkbook, legacy_workbook, current_workbook.
    cbn [Sheet_Nodes Sheet_Links Sheet_Meta].
    rewrite isNewSchema_legacy, Hleg1, Hleg2, Hcur1, Hcur2.
    eexists. split; [reflexivity|]. split; [reflexivity|].
    cbn [nodes links]. repeat split.
    eexists. split; [reflexivity|]. apply decoded_links_raw.
  - unfold decodeSQLite, legacy_database, current_database.
    cbn [tbl_nodes tbl_links tbl_meta].
    rewrite !(sql_rows_map _ legacy_node_row) by apply rowObj_legacy_node.
    rewrite !(sql_rows_map _ legacy_link_row) by apply rowObj_legacy_link.
    rewrite !(sql_rows_map _ (current_node_row sid)) by apply rowObj_current_node.
    rewrite !(sql_rows_map _ (current_link_row sid)) by apply rowObj_current_link.
    cbn [columns table_of].
    assert (bool_decide ("label" ∈ ["id"; "weight"]) = false) as ->
      by (by vm_compute).
    assert (bool_decide ("label" ∈ ["id"; "label"; "weight"]) = true) as ->
      by (by vm_compute).
    rewrite Hleg1, Hleg2, Hlab1, Hlab2.
    eexists. split; [reflexivity|]. split; [reflexivity|].
    cbn [nodes links]. repeat split.
    eexists. split; [reflexivity|]. apply decoded_links_raw.
Qed.

End SchemaFacts.

(* ===================================================================== *)
(** ** The encoders and the round trip                                    *)
(* ===================================================================== *)

Section RoundTripFacts.

Variable ts : Qc → string.
Variable pI : prim → option Z.
Variable fn : string.

(** *** Rounding *)

Lemma Qmake_hundredths (n : Z) : (n # 100 == inject_Z n * (1 # 100))%Q.
Proof. unfold Qeq, Qmult, inject_Z. simpl. lia. Qed.

Lemma round_hundredths_near (q : Q) (x : Qc) :
  (x == q)%Q →
  (- (1 # 200) <= q - round_hundredths x <= 1 # 200)%Q.
Proof.
  intros Hx. unfold round_hundredths. cbn [this Q2Qc].
  rewrite Qred_correct, Qmake_hundredths.
  pose proof (Qfloor_le (x * 100 + 1 / 2)) as H1.
  pose proof (Qlt_floor (x * 100 + 1 / 2)) as H2.
  rewrite inject_Z_plus in H2.
  set (n := inject_Z (Qfloor (x * 100 + 1 / 2))) in *.
  rewrite Hx in H1, H2. change (inject_Z 1) with 1%Q in H2.
  clearbody n. change (1 / 2)%Q with (1 # 2)%Q in *. split; lra.
Qed.

(** [toFixed(2)] moves a number by at most half a hundredth. *)
Lemma toFixed2_precision (x : Qc) : (Qabs (x - toFixed2 x) <= 1 # 200)%Q.
Proof.
  unfold toFixed2. apply Qabs_Qle_condition.
  destruct (Qle_bool (10 ^ 21) (Qabs x)); [split; lra|].
  destruct (Qle_bool 0 x).
  - by apply round_hundredths_near.
  - cbn [this Q2Qc]. rewrite Qred_correct.
    pose proof (round_hundredths_near (- x)%Q (Q2Qc (- x))) as [H1 H2].
    { cbn [this Q2Qc]. apply Qred_correct. }
    split; lra.
Qed.

(** *** [nodeMap] *)

Lemma nodeMap_from_cons (start : Z) (n : Node) (ns : list Node) (m0 : gmap prim Z) :
  nodeMap_from start (n :: ns) m0
  = nodeMap_from (start + 1) ns (<[node_id n := start]> m0).
Proof. done. Qed.

Lemma nodeMap_from_notin (ns : list Node) (start : Z) (m0 : gmap prim Z) (a : prim) :
  a ∉ node_id <$> ns → nodeMap_from start ns m0 !! a = m0 !! a.
Proof.
  revert start m0. induction ns as [|n ns IH]; intros start m0 Ha; [done|].
  rewrite fmap_cons, not_elem_of_cons in Ha. destruct Ha as [Hne Ha].
  rewrite nodeMap_from_cons, IH by done. by rewrite lookup_insert_ne.
Qed.

Lemma nodeMap_from_in (ns : list Node) (start : Z) (m0 : gmap prim Z) (a : prim) :
  a ∈ node_id <$> ns →
  ∃ (i : nat) n, ns !! i = Some n ∧ node_id n = a ∧
                 nodeMap_from start ns m0 !! a = Some (start + Z.of_nat i)%Z.
Proof.
  revert start m0. induction ns as [|n ns IH]; intros start m0 Ha.
  - by apply elem_of_nil in Ha.
  - rewrite nodeMap_from_cons.
    destruct (decide (a ∈ node_id <$> ns)) as [Hin|Hnin].
    + destruct (IH (start + 1)%Z (<[node_id n:=start]> m0) Hin)
        as (i & n' & Hi & Hid & Hl).
      exists (S i), n'. repeat split; [done..|]. rewrite Hl. f_equal. lia.
    + rewrite fmap_cons in Ha. apply elem_of_cons in Ha as [->|Ha]; [|done].
      exists 0%nat, n. repeat split.
      rewrite nodeMap_from_notin by done.
      rewrite lookup_insert_eq. f_equal. lia.
Qed.

Lemma nodeMap_from_inv (ns : list Node) (start : Z) (m0 : gmap prim Z)
    (a : prim) (k : Z) :
  nodeMap_from start ns m0 !! a = Some k →
  m0 !! a = Some k ∨
  ∃ (i : nat) n, ns !! i = Some n ∧ node_id n = a ∧ k = (start + Z.of_nat i)%Z.
Proof.
  intros Hl. destruct (decide (a ∈ node_id <$> ns)) as [Hin|Hnin].
  - right. destruct (nodeMap_from_in ns start m0 a Hin) as (i & n & Hi & Hid & Hl').
    exists i, n. repeat split; [done..|]. congruence.
  - left. by rewrite nodeMap_from_notin in Hl.
Qed.

Lemma nodeMap_lookup (ns : list Node) (a : prim) (k : Z) :
  nodeMap ns !! a = Some k →
  ∃ (i : nat) n, ns !! i = Some n ∧ node_id n = a ∧ k = (1 + Z.of_nat i)%Z.
Proof.
  intros Hl. by apply nodeMap_from_inv in Hl as [Hl|Hl].
Qed.

Lemma nodeMap_pos (ns : list Node) (a : prim) (k : Z) :
  nodeMap ns !! a = Some k → (1 <= k)%Z.
Proof. intros (i & n & _ & _ & ->)%nodeMap_lookup. lia. Qed.

Lemma nodeMap_inj (ns : list Node) (a b : prim) (k : Z) :
  nodeMap ns !! a = Some k → nodeMap ns !! b = Some k → a = b.
Proof.
  intros (i & n & Hi & <- & ->)%nodeMap_lookup (j & n' & Hj & <- & Hk)%nodeMap_lookup.
  assert (i = j) as -> by lia. congruence.
Qed.

Lemma nodeMap_is_Some (ns : list Node) (a : prim) :
  a ∈ node_id <$> ns → is_Some (nodeMap ns !! a).
Proof.
  intros Ha. destruct (nodeMap_from_in ns 1 ∅ a Ha) as (i & n & _ & _ & Hl).
  by eexists.
Qed.

(** *** Typed graphs *)

Lemma typed_node_shape (n : Node) :
  typed_node n = true →
  node_id n = PStr (str_of (node_id n)) ∧
  node_weight n = PNum (num_of (node_weight n)).
Proof. destruct n as [[] [] ????]; by simpl. Qed.

Lemma typed_endpoint_shape (e : endpoint) :
  typed_endpoint e = true → endpoint_id e = PStr (str_of (endpoint_id e)).
Proof.
  destruct e as [[]|n]; simpl; try done. intros Hn. by apply typed_node_shape.
Qed.

Lemma getId_typed (e : endpoint) :
  typed_endpoint e = true → truthy (endpoint_id e) = true →
  getId e = Ok (EPrim (endpoint_id e)).
Proof. destruct e as [[]|n]; simpl; try done. by intros _ ->. Qed.

Lemma forallb_Forall {A} (f : A → bool) (xs : list A) :
  forallb f xs = true → Forall (λ x, f x = true) xs.
Proof.
  induction xs as [|x xs IH]; simpl; [constructor|].
  rewrite andb_true_iff. intros [Hx Hxs]. constructor; auto.
Qed.

Lemma well_typed_Forall (ns : list Node) (ls : list Link) :
  well_typed ns ls = true →
  Forall (λ n, typed_node n = true) ns ∧ Forall (λ l, typed_link l = true) ls.
Proof.
  unfold well_typed. rewrite andb_true_iff.
  intros [Hn Hl]. split; by apply forallb_Forall.
Qed.

Lemma links_closed_Forall (ns : list Node) (ls : list Link) :
  links_closed ns ls = true → Forall (λ l, closed_link ns l = true) ls.
Proof. apply forallb_Forall. Qed.

Lemma names_node_spec (ns : list Node) (e : endpoint) :
  names_node ns e = true →
  truthy (endpoint_id e) = true ∧ endpoint_id e ∈ node_id <$> ns.
Proof.
  unfold names_node. rewrite andb_true_iff, bool_decide_eq_true. tauto.
Qed.

(** *** The Workbook exporter writes the Legacy layout *)

Lemma excel_node_row_typed (n : Node) :
  typed_node n = true →
  excel_node_row n = Ok (sheet_row (legacy_node_row (rounded_node (logical_node n)))).
Proof. destruct n as [[] [] ????]; by simpl. Qed.

Lemma excel_link_row_typed (ns : list Node) (l : Link) :
  typed_link l = true → closed_link ns l = true →
  excel_link_row l = Ok (sheet_row (legacy_link_row (rounded_link (logical_link l)))).
Proof.
  unfold typed_link, closed_link. rewrite !andb_true_iff.
  intros [[Hs Ht] Hw] [[Hs' _]%names_node_spec [Ht' _]%names_node_spec].
  unfold excel_link_row, logical_link, rounded_link, legacy_link_row. simpl.
  rewrite (getId_typed _ Hs Hs'), (getId_typed _ Ht Ht'). simpl.
  rewrite (typed_endpoint_shape _ Hs), (typed_endpoint_shape _ Ht). simpl.
  destruct (link_weight l); by simpl.
Qed.

Lemma exportDataToExcel_typed (ns : list Node) (ls : list Link)
    (mt : option Meta) (gn : option (gmap string string)) :
  well_typed ns ls = true → links_closed ns ls = true →
  exportDataToExcel
    (Some {| nodes := Some ns; links := Some ls; meta := mt; group_names := gn |})
  = Ok (Some (legacy_workbook (rounded_node ∘ logical_node <$> ns)
                              (rounded_link ∘ logical_link <$> ls)
                              (excel_meta_rows <$> mt))).
Proof.
  intros [Hn Hl]%well_typed_Forall Hc%links_closed_Forall.
  unfold exportDataToExcel, legacy_workbook. cbn [nodes links meta member mbind outcome_bind JS.bind].
  rewrite (mapM_ok_fmap _ (λ n, sheet_row (legacy_node_row (rounded_node (logical_node n))))).
  2:{ rewrite list.Forall_forall in *. intros n Hin.
      by apply excel_node_row_typed, Hn. }
  cbn [JS.bind].
  rewrite (mapM_ok_fmap _ (λ l, sheet_row (legacy_link_row (rounded_link (logical_link l))))).
  2:{ rewrite list.Forall_forall in *. intros l Hin.
      eapply excel_link_row_typed; [by apply Hl|by apply Hc]. }
  cbn [JS.bind]. by rewrite <- !list_fmap_compose.
Qed.

(** *** The EmbeddedDB exporter writes the Current layout *)

Lemma surrogate_of_node (ns : list Node) (n : Node) :
  typed_node n = true → n ∈ ns →
  nodeMap ns !! node_id n = Some (surrogate ns (str_of (node_id n))) ∧
  (1 <= surrogate ns (str_of (node_id n)))%Z.
Proof.
  intros [Hid _]%typed_node_shape Hin.
  assert (node_id n ∈ node_id <$> ns) as [k Hk]%nodeMap_is_Some
    by (apply list_elem_of_fmap; eauto).
  unfold surrogate. rewrite <- Hid, Hk. simpl. split; [done|].
  by eapply nodeMap_pos.
Qed.

Lemma surrogate_faithful (ns : list Node) :
  Forall (λ n, typed_node n = true) ns →
  ∀ a b, a ∈ (logical_node <$> ns).*1 →
         surrogate ns a = surrogate ns b → a = b.
Proof.
  intros Hty a b Ha Heq.
  apply list_elem_of_fmap in Ha as (ln & -> & Hln).
  apply list_elem_of_fmap in Hln as (n & -> & Hn).
  rewrite list.Forall_forall in Hty.
  destruct (surrogate_of_node ns n (Hty n Hn) Hn) as [Hk Hpos].
  simpl in *. rewrite Heq in Hk, Hpos.
  unfold surrogate in Hk, Hpos.
  destruct (nodeMap ns !! PStr b) as [k|] eqn:Hb; simpl in *; [|lia].
  pose proof (nodeMap_inj ns _ _ _ Hk Hb) as Hab.
  destruct (typed_node_shape n (Hty n Hn)) as [Hid _].
  rewrite Hid in Hab. by injection Hab.
Qed.

Lemma sqlite_node_row_typed (ns : list Node) (n : Node) :
  typed_node n = true → n ∈ ns →
  sqlite_node_row (nodeMap ns) n
  = (current_node_row (surrogate ns) (logical_node n)).*2.
Proof.
  intros Hty Hin. destruct (surrogate_of_node ns n Hty Hin) as [Hk _].
  destruct (typed_node_shape n Hty) as [Hid Hw].
  unfold sqlite_node_row. rewrite Hk. simpl. by rewrite <- Hid, <- Hw.
Qed.

Lemma surrogate_of_endpoint (ns : list Node) (e : endpoint) :
  typed_endpoint e = true → names_node ns e = true →
  nodeMap ns !! endpoint_id e = Some (surrogate ns (str_of (endpoint_id e))) ∧
  (1 <= surrogate ns (str_of (endpoint_id e)))%Z.
Proof.
  intros Hty [_ Hin]%names_node_spec.
  apply nodeMap_is_Some in Hin as [k Hk].
  pose proof (typed_endpoint_shape e Hty) as Hid.
  unfold surrogate. rewrite <- Hid, Hk. simpl. split; [done|].
  by eapply nodeMap_pos.
Qed.

Lemma sqlite_link_row_typed (ns : list Node) (l : Link) :
  typed_link l = true → closed_link ns l = true →
  sqlite_link_row (nodeMap ns) l
  = Ok (Some (current_link_row (surrogate ns) (logical_link l)).*2).
Proof.
  unfold typed_link, closed_link. rewrite !andb_true_iff.
  intros [[Hs Ht] Hw] [Hs' Ht'].
  destruct (surrogate_of_endpoint ns _ Hs Hs') as [Hks Hps].
  destruct (surrogate_of_endpoint ns _ Ht Ht') as [Hkt Hpt].
  apply names_node_spec in Hs' as [Hs' _]. apply names_node_spec in Ht' as [Ht' _].
  unfold sqlite_link_row.
  rewrite (getId_typed _ Hs Hs'), (getId_typed _ Ht Ht').
  cbn [mbind outcome_bind JS.bind nodeMap_get]. rewrite Hks, Hkt.
  cbn [truthy_id from_option].
  rewrite (proj2 (Z.eqb_neq _ 0)), (proj2 (Z.eqb_neq _ 0)) by lia.
  simpl. destruct (link_weight l); by simpl in *.
Qed.

Lemma sqlite_meta_rows_printable (m : Meta) :
  meta_printable (Some m) = true → is_ok (sqlite_meta_rows ts m) = true.
Proof.
  unfold meta_printable, sqlite_meta_rows.
  destruct (meta_stats m) as [[a b]|]; simpl; [|done].
  by destruct a, b.
Qed.

Lemma omap_id_Some {A B} (g : A → B) (xs : list A) :
  omap id ((λ x, Some (g x)) <$> xs) = g <$> xs.
Proof. induction xs as [|x xs IH]; csimpl; [done|]. by rewrite IH. Qed.

Lemma exportDataToSQLite_typed (ns : list Node) (ls : list Link)
    (mt : option Meta) (gn : option (gmap string string)) :
  well_typed ns ls = true → links_closed ns ls = true →
  unique_ids ns = true → meta_printable mt = true →
  ∃ metaTable,
    exportDataToSQLite ts
      (Some {| nodes := Some ns; links := Some ls; meta := mt; group_names := gn |})
    = Ok (Some (current_database (surrogate ns) (logical_node <$> ns)
                                 (logical_link <$> ls) (Some metaTable))).
Proof.
  intros [Hn Hl]%well_typed_Forall Hc%links_closed_Forall Hu Hp.
  unfold exportDataToSQLite, current_database, table_of, unique_ids in *.
  cbn [nodes links meta member mbind outcome_bind JS.bind].
  rewrite Hu. cbn [mbind outcome_bind JS.bind].
  rewrite (mapM_ok_fmap _
             (λ l, Some (current_link_row (surrogate ns) (logical_link l)).*2)).
  2:{ rewrite list.Forall_forall in *. intros l Hin.
      eapply sqlite_link_row_typed; [by apply Hl|by apply Hc]. }
  cbn [mbind outcome_bind JS.bind].
  rewrite (omap_id_Some (λ l, (current_link_row (surrogate ns) (logical_link l)).*2)).
  assert (sqlite_node_row (nodeMap ns) <$> ns
          = (λ r : list (string * prim), r.*2)
              <$> (current_node_row (surrogate ns) <$> (logical_node <$> ns))) as ->.
  { rewrite <- !list_fmap_compose. apply Forall_fmap_ext.
    rewrite list.Forall_forall in *. intros n Hin.
    by apply sqlite_node_row_typed; [apply Hn|]. }
  rewrite <- !list_fmap_compose.
  destruct mt as [m|]; cbn [mbind outcome_bind JS.bind].
  - pose proof (sqlite_meta_rows_printable m Hp) as Hm.
    destruct (sqlite_meta_rows ts m) as [rows|]; [|done].
    cbn [mbind outcome_bind JS.bind]. by eexists.
  - by eexists.
Qed.

(** *** Decoding what the exporters wrote *)

Lemma decodeWorkbook_legacy (ns : list (string * Qc))
    (ls : list (string * string * Qc)) (metaSheet : option (list (gmap string prim))) :
  ∃ g, decodeWorkbook ts pI fn (legacy_workbook ns ls metaSheet) = Ok g ∧
       nodes g = Some (decoded_node <$> ns) ∧
       links g = Some (omap (decoded_link ns) ls).
Proof.
  pose proof (extract_legacy ns ls) as Hleg. unfold extract in Hleg.
  injection Hleg as Hleg1 Hleg2.
  unfold decodeWorkbook, legacy_workbook.
  cbn [Sheet_Nodes Sheet_Links Sheet_Meta].
  rewrite isNewSchema_legacy, Hleg1, Hleg2.
  eexists. split; [reflexivity|]. by cbn [nodes links].
Qed.

Lemma decodeSQLite_current (sid : string → Z) (ns : list (string * Qc))
    (ls : list (string * string * Qc)) (metaTable : option table) :
  (∀ a b, a ∈ ns.*1 → sid a = sid b → a = b) →
  ∃ g, decodeSQLite ts pI fn (current_database sid ns ls metaTable) = Ok g ∧
       nodes g = Some (decoded_node <$> ns) ∧
       links g = Some (omap (decoded_link ns) ls).
Proof.
  intros Hinj.
  pose proof (extract_current_label sid ns ls Hinj) as Hlab. unfold extract in Hlab.
  injection Hlab as Hlab1 Hlab2.
  unfold decodeSQLite, current_database. cbn [tbl_nodes tbl_links tbl_meta].
  rewrite !(sql_rows_map _ (current_node_row sid)) by apply rowObj_current_node.
  rewrite !(sql_rows_map _ (current_link_row sid)) by apply rowObj_current_link.
  cbn [columns table_of].
  assert (bool_decide ("label" ∈ ["id"; "label"; "weight"]) = true) as ->
    by (by vm_compute).
  rewrite Hlab1, Hlab2.
  eexists. split; [reflexivity|]. by cbn [nodes links].
Qed.

(** *** Every link of a closed graph resolves *)

Lemma link_resolves_closed (ns : list Node) (lns : list (string * Qc)) (l : Link)
    (ll : string * string * Qc) :
  lns.*1 = (λ n, str_of (node_id n)) <$> ns →
  ll.1 = (logical_link l).1 →
  typed_link l = true → closed_link ns l = true →
  link_resolves lns ll = true.
Proof.
  intros Hlns Hll. unfold typed_link, closed_link. rewrite !andb_true_iff.
  intros [[Hs Ht] _] [[Hs1 Hs2]%names_node_spec [Ht1 Ht2]%names_node_spec].
  unfold link_resolves. rewrite Hll, Hlns. cbn [logical_link fst snd].
  rewrite <- (typed_endpoint_shape _ Hs), <- (typed_endpoint_shape _ Ht).
  rewrite Hs1, Ht1.
  rewrite !andb_true_iff, !bool_decide_eq_true. repeat split.
  - apply list_elem_of_fmap in Hs2 as (n & -> & Hn). apply list_elem_of_fmap. eauto.
  - apply list_elem_of_fmap in Ht2 as (n & -> & Hn). apply list_elem_of_fmap. eauto.
Qed.

Lemma decoded_links_closed (ns : list Node) (ls : list Link)
    (fw : Qc → Qc) :
  let lns := (λ n, ((logical_node n).1, fw (logical_node n).2)) <$> ns in
  let lls := (λ l, ((logical_link l).1, fw (logical_link l).2)) <$> ls in
  well_typed ns ls = true → links_closed ns ls = true →
  omap (decoded_link lns) lls = resolved_link <$> lls.
Proof.
  intros lns lls [Hn Hl]%well_typed_Forall Hc%links_closed_Forall.
  apply omap_all_Some. subst lls. apply Forall_fmap.
  rewrite list.Forall_forall in *. intros l Hin. simpl.
  unfold decoded_link.
  rewrite (link_resolves_closed ns lns l); [done| |done|by apply Hl|by apply Hc].
  subst lns. by rewrite <- list_fmap_compose.
Qed.

Lemma nodes_kept (R : prim → prim → Prop) (fw : Qc → Qc) (ns : list Node) :
  (∀ w, R (PNum w) (PNum (fw w))) →
  Forall (λ n, typed_node n = true) ns →
  Forall2 (node_kept R) ns
    (decoded_node <$> ((λ n, ((logical_node n).1, fw (logical_node n).2)) <$> ns)).
Proof.
  intros HR Hty. rewrite <- list_fmap_compose.
  apply Forall2_fmap_r, Forall_Forall2_diag.
  rewrite list.Forall_forall in *. intros n Hin.
  destruct (typed_node_shape n (Hty n Hin)) as [Hid Hw].
  split; simpl; [done|]. rewrite Hw at 1. apply HR.
Qed.

Lemma links_kept (R : prim → prim → Prop) (fw : Qc → Qc) (ls : list Link) :
  (∀ w, R (PNum w) (PNum (fw w))) →
  Forall (λ l, typed_link l = true) ls →
  Forall2 (link_kept R) ls
    (resolved_link <$> ((λ l, ((logical_link l).1, fw (logical_link l).2)) <$> ls)).
Proof.
  intros HR Hty. rewrite <- list_fmap_compose.
  apply Forall2_fmap_r, Forall_Forall2_diag.
  rewrite list.Forall_forall in *. intros l Hin.
  pose proof (Hty l Hin) as Hl. unfold typed_link in Hl.
  rewrite !andb_true_iff in Hl. destruct Hl as [[Hs Ht] Hw].
  repeat split; simpl.
  - by rewrite <- (typed_endpoint_shape _ Hs).
  - by rewrite <- (typed_endpoint_shape _ Ht).
  - destruct (link_weight l); try done; apply HR.
Qed.


End RoundTripFacts.

(* ===================================================================== *)
(** ** The codecs on the sample data                                      *)
(* ===================================================================== *)



(** The other conditions of the round trip are needed as well: a link to
    a node whose id is the empty string is lost by the Workbook codec, and
    the EmbeddedDB export throws on a repeated node id and on [stats]
    without counts. *)
Lemma roundtrip_conditions_needed :
  (∃ wb g, exportDataToExcel (Some Sample.empty_id_graph) = Ok (Some wb) ∧
           decodeWorkbook Sample.toString Sample.parseInt Sample.file wb = Ok g ∧
           links g = Some []) ∧
  is_ok (exportDataToSQLite Sample.toString (Some Sample.twice_graph)) = false ∧
  is_ok (exportDataToSQLite Sample.toString (Some Sample.bare_stats_graph)) = false.
Proof.
  split; [|split; by vm_compute].
  eexists _, _. split; [vm_compute; reflexivity|].
  split; [vm_compute; reflexivity|]. by vm_compute.
Qed.

(** Surrogates taken from an injective numbering of all strings tell the
    sample labels apart, and the two layouts of the sample graph, which
    has a link to a missing node ["Z"], decode alike. *)
Lemma schema_variants_decode_alike_witness :
  (∀ a b, a ∈ Sample.logical_nodes.*1 → Sample.sid a = Sample.sid b → a = b) ∧
  decode_same_graph Sample.toString Sample.parseInt Sample.file
    Sample.logical_nodes Sample.logical_links
    (WorkbookFile (legacy_workbook Sample.logical_nodes Sample.logical_links None))
    (WorkbookFile (current_workbook Sample.sid Sample.logical_nodes
                                    Sample.logical_links None)) ∧
  decode_same_graph Sample.toString Sample.parseInt Sample.file
    Sample.logical_nodes Sample.logical_links
    (SQLiteFile (legacy_database Sample.logical_nodes Sample.logical_links None))
    (SQLiteFile (current_database Sample.sid Sample.logical_nodes
                                  Sample.logical_links None)).
Proof.
  assert (∀ a b, a ∈ Sample.logical_nodes.*1 → Sample.sid a = Sample.sid b → a = b)
    as Hinj.
  { intros a b _ Heq. unfold Sample.sid in Heq. injection Heq as Heq.
    by apply (inj encode). }
  split; [exact Hinj|].
  exact (schema_variants_decode_alike Sample.toString Sample.parseInt Sample.file
           Sample.sid Sample.logical_nodes Sample.logical_links None None Hinj).
Defined.

(** C3 at failing inputs.  In the Legacy workbook whose node ids are the
    numbers 0 and 1, and in the Current database whose first node has the
    empty string as label, the one link row has both ends among the keys
    of the id-to-label map, so no link is dangling; the decode succeeds and
    keeps no link, because the label found for the source ([0], [""]) is
    falsy. *)
Theorem link_to_falsy_label_is_dropped (ts : Qc → string) (pI : prim → option Z)
    (fn : string) :
  (let m := idToLabelMap_of (isNewSchema Sample.numbered_nodes) Sample.numbered_nodes in
   length Sample.numbered_links = 1%nat ∧
   filter (λ row, dangling m row = true) Sample.numbered_links = [] ∧
   ∃ g, decodeWorkbook ts pI fn Sample.numbered_workbook = Ok g ∧
        links g = Some []) ∧
  (let rows := rowObj (columns Sample.empty_label_nodes)
                 <$> values Sample.empty_label_nodes in
   let lrows := rowObj (columns Sample.empty_label_links)
                  <$> values Sample.empty_label_links in
   let m := idToLabelMap_of true rows in
   length lrows = 1%nat ∧
   filter (λ row, dangling m row = true) lrows = [] ∧
   ∃ g, decodeSQLite ts pI fn Sample.empty_label_database = Ok g ∧
        links g = Some []).
Proof.
  split.
  - split; [done|]. split; [by vm_compute|].
    eexists. split; [reflexivity|]. by vm_compute.
  - split; [done|]. split; [by vm_compute|].
    eexists. split; [reflexivity|]. by vm_compute.
Qed.

(** The scenario of C9: the first node row of a Current workbook has a
    blank label cell, and the whole workbook is read as Legacy; node ids
    and link ends are then the surrogate numbers. *)
Lemma blank_first_label_read_as_legacy (ts : Qc → string) (pI : prim → option Z)
    (fn : string) :
  ∃ g, decodeWorkbook ts pI fn Sample.blank_first_label = Ok g ∧
       nodes g = Some [bare_node (num 1) (PNum Sample.one);
                       bare_node (num 2) (PNum Sample.one)] ∧
       links g = Some [bare_link (num 1) (num 2) (PNum Sample.one)].
Proof.
  eexists. split; [reflexivity|]. split; by vm_compute.
Qed.


(* ===================================================================== *)
(** ** Import                                                             *)
(* ===================================================================== *)

Section ImportFacts.

Variable ts : Qc → string.
Variable pI : prim → option Z.
Variable fn : string.

(** On the vanilla page a decoded object without [nodes] or without
    [links] is rejected by [processResult] before anything is assigned. *)
Lemma processResult_rejects_incomplete (result : GraphData) (st : page) :
  nodes result = None ∨ links result = None →
  ∃ e, processResult fn result st = (st, Throw e).
Proof.
  intros Hmiss. unfold processResult.
  destruct (nodes result), (links result); try by eexists.
  by destruct Hmiss.
Qed.

(** A failed decode of any of the three kinds of file, and a Plain text
    without [nodes] or [links], leave the vanilla page as it was. *)
Lemma vanilla_import_all_or_nothing (f : import_file) (st : page) :
  (is_ok (decode ts pI fn f) = false ∨
   ∃ doc, f = PlainFile (JsonText doc) ∧ (nodes doc = None ∨ links doc = None)) →
  ∃ e, importAndVisualize ts pI fn f st = (st, Throw e).
Proof.
  unfold importAndVisualize. intros [Hfail|(doc & -> & Hmiss)].
  - destruct (decode ts pI fn f); [done|]. by eexists.
  - simpl. by apply processResult_rejects_incomplete.
Qed.

End ImportFacts.

(** C4 at a failing input.  With the scenario graph live on the React
    page, importing a text that has [links] but no [nodes] fails, yet
    [graphData] now holds the imported object: the live graph has been
    replaced although the import was rejected. *)
Theorem react_import_failure_replaces_graph :
  let run := React.handleImport (JsonText Sample.no_nodes) Sample.loaded in
  run.2 = Throw "TypeError" ∧
  React.graphData Sample.loaded = Some Sample.abc ∧
  React.graphData run.1 = Some Sample.no_nodes ∧
  React.filteredData run.1 = Some Sample.abc.
Proof. by repeat split. Qed.

(* ===================================================================== *)
(** ** Selection and highlight                                            *)
(* ===================================================================== *)

Section HighlightFacts.

Lemma joined_cons (l : Link) (ls : list Link) (a b : prim) :
  joined (l :: ls) a b ↔
  (endpoint_id (source l) = a ∧ endpoint_id (target l) = b) ∨
  (endpoint_id (source l) = b ∧ endpoint_id (target l) = a) ∨
  joined ls a b.
Proof.
  unfold joined. split.
  - intros (l' & [->|Hin]%elem_of_cons & Hl'); [tauto|]. right. right. eauto.
  - intros [H|[H|(l' & Hin & Hl')]].
    + exists l. split; [by left|tauto].
    + exists l. split; [by left|tauto].
    + exists l'. split; [by right|done].
Qed.

Lemma joined_nil (a b : prim) : ¬ joined [] a b.
Proof. intros (l & Hin & _). by apply elem_of_nil in Hin. Qed.

(** On the React page the derived set is the selected node together with
    every node a link joins it to. *)
Lemma react_neighborIds_spec (d : Node) (ls : list Link) (m : prim) :
  m ∈ React.neighborIds d ls ↔ m = node_id d ∨ joined ls (node_id d) m.
Proof.
  unfold React.neighborIds.
  assert (∀ acc : gset prim,
            m ∈ foldl (λ acc l,
                 let acc1 := if bool_decide (endpoint_id (source l) = node_id d)
                             then acc ∪ {[endpoint_id (target l)]} else acc in
                 if bool_decide (endpoint_id (target l) = node_id d)
                 then acc1 ∪ {[endpoint_id (source l)]} else acc1) acc ls
            ↔ m ∈ acc ∨ joined ls (node_id d) m) as Hgen.
  { induction ls as [|l ls IH]; intros acc.
    - simpl. split; [auto|]. intros [?|?%joined_nil]; done.
    - cbn [foldl]. rewrite IH, joined_cons.
      repeat case_bool_decide; set_solver. }
  rewrite Hgen. set_solver.
Qed.

(** On the vanilla page the derived set holds the two ends of every link
    that touches the selected node, and nothing else. *)
Lemma vanilla_neighborIds_spec (d : Node) (ls : list Link) (m : prim) :
  m ∈ Vanilla.neighborIds d ls ↔
  ∃ l, l ∈ ls ∧ isConnected d l = true ∧
       (m = endpoint_id (source l) ∨ m = endpoint_id (target l)).
Proof.
  unfold Vanilla.neighborIds.
  assert (∀ acc : gset prim,
            m ∈ foldl (λ acc l, if isConnected d l
                         then acc ∪ {[endpoint_id (source l)]}
                                  ∪ {[endpoint_id (target l)]}
                         else acc) acc ls
            ↔ m ∈ acc ∨ ∃ l, l ∈ ls ∧ isConnected d l = true ∧
                 (m = endpoint_id (source l) ∨ m = endpoint_id (target l))) as Hgen.
  { induction ls as [|l ls IH]; intros acc.
    - simpl. split; [auto|]. intros [?|(l & Hin & _)]; [done|].
      by apply elem_of_nil in Hin.
    - cbn [foldl]. rewrite IH. split.
      + intros [Hacc|(l' & Hin & Hc & Hm)].
        * destruct (isConnected d l) eqn:Hc; [|by left].
          apply elem_of_union in Hacc as [[Hacc|Hs%elem_of_singleton]%elem_of_union
                                         |Ht%elem_of_singleton].
          -- by left.
          -- right. exists l. split; [by left|auto].
          -- right. exists l. split; [by left|auto].
        * right. exists l'. split; [by right|auto].
      + intros [Hacc|(l' & [->|Hin]%elem_of_cons & Hc & Hm)].
        * left. destruct (isConnected d l); set_solver.
        * left. rewrite Hc. set_solver.
        * right. eauto. }
  rewrite Hgen. set_solver.
Qed.

(** A background interaction clears the selection and puts every node and
    link back at full opacity, on either page. *)
Lemma clearing_restores_full_opacity :
  (∀ sc, Forall (λ o, o = opaque_) (node_opacity (Vanilla.background_click sc)) ∧
         Forall (λ o, o = opaque_) (link_opacity (Vanilla.background_click sc))) ∧
  (∀ st ns ls,
     let st' := React.handleBackgroundClick st in
     React.selectedNode st' = None ∧
     Forall (λ o, o = opaque_) (node_opacity (React.highlight (React.selectedNode st') ns ls)) ∧
     Forall (λ o, o = opaque_) (link_opacity (React.highlight (React.selectedNode st') ns ls))).
Proof.
  split.
  - intros sc. split; apply Forall_fmap, list.Forall_forall; done.
  - intros st ns ls. simpl. split; [done|].
    split; apply Forall_fmap, list.Forall_forall; done.
Qed.

End HighlightFacts.

(** C7 at a failing input.  The vanilla page draws [A], [B], [C] and the
    link [B-C]; selecting [A], which has no link, derives the empty set
    where the claim (and the React page) has the set of [A] alone, and the
    selected node is dimmed with all the others. *)
Theorem vanilla_highlight_of_isolated_node :
  Vanilla.neighborIds Sample.A (drawn_links Sample.drawn) = ∅ ∧
  React.neighborIds Sample.A (drawn_links Sample.drawn) = {[PStr "A"]} ∧
  node_opacity (Vanilla.highlightNeighbors Sample.A Sample.drawn)
  = [dimmed; dimmed; dimmed].
Proof. repeat split; by vm_compute. Qed.

(* ===================================================================== *)
(** ** Deletion and export                                                *)
(* ===================================================================== *)

Section DeleteFacts.

Lemma idOf_no_null (e : endpoint) :
  e ≠ EPrim PNull → React.idOf e = Ok (endpoint_id e).
Proof. by destruct e as [[]|]. Qed.

Lemma no_null_end_spec (l : Link) :
  no_null_end l = true → source l ≠ EPrim PNull ∧ target l ≠ EPrim PNull.
Proof.
  unfold no_null_end. rewrite andb_true_iff, !bool_decide_eq_true. tauto.
Qed.

(** A filter over links by the ids of their two ends does not throw when
    no end is [null]. *)
Lemma filter_by_ends (q : prim → prim → bool) (ls : list Link) :
  forallb no_null_end ls = true →
  Vanilla.filterM (λ l, s ← React.idOf (source l);
                        t ← React.idOf (target l);
                        Ok (q s t)) ls
  = Ok (filter (λ l, q (endpoint_id (source l)) (endpoint_id (target l)) = true) ls).
Proof.
  intros Hnn%forallb_Forall.
  apply (filterM_ok_filter _
           (λ l, q (endpoint_id (source l)) (endpoint_id (target l)))).
  rewrite list.Forall_forall in *. intros l Hin.
  destruct (no_null_end_spec l (Hnn l Hin)) as [Hs Ht].
  by rewrite (idOf_no_null _ Hs), (idOf_no_null _ Ht).
Qed.

Lemma forallb_filter {A} (f : A → bool) (P : A → Prop) `{∀ x, Decision (P x)}
    (xs : list A) :
  forallb f xs = true → forallb f (filter P xs) = true.
Proof.
  induction xs as [|x xs IH]; simpl; [done|].
  rewrite andb_true_iff. intros [Hx Hxs]. rewrite filter_cons.
  case_decide; simpl; [rewrite Hx|]; auto.
Qed.

(** C8.  With a node selected on the React page and a graph none of whose
    link ends is [null], deleting the selected node succeeds; the graph of
    the page is then the old one without that node and without every link
    that touches it, its other fields unchanged, and the selection is
    cleared; a JSON export made next writes exactly that graph, in which
    no node has the deleted id and no link touches it. *)
Theorem delete_then_export (st : React.app) (sel : Node) (ns : list Node)
    (ls : list Link) (mt : option Meta) (gn : option (gmap string string)) :
  React.selectedNode st = Some sel →
  React.graphData st
  = Some {| nodes := Some ns; links := Some ls; meta := mt; group_names := gn |} →
  forallb no_null_end ls = true →
  let G' := {| nodes := Some (filter (λ n, node_id n ≠ node_id sel) ns);
               links := Some (filter (λ l, ¬ touches (node_id sel) l) ls);
               meta := mt; group_names := gn |} in
  ∃ st',
    React.handleDeleteNode st = (st', Ok ()) ∧
    React.graphData st' = Some G' ∧
    React.selectedNode st' = None ∧
    React.handleExport React.json st' = Some (JSON_stringify G') ∧
    Forall (λ n, node_id n ≠ node_id sel) (filter (λ n, node_id n ≠ node_id sel) ns) ∧
    Forall (λ l, ¬ touches (node_id sel) l)
           (filter (λ l, ¬ touches (node_id sel) l) ls).
Proof.
  intros Hsel Hg Hnn G'.
  assert (filter (λ l, bool_decide (endpoint_id (source l) ≠ node_id sel)
                       && bool_decide (endpoint_id (target l) ≠ node_id sel) = true) ls
          = filter (λ l, ¬ touches (node_id sel) l) ls) as Hfilter.
  { apply list_filter_iff. intros l. unfold touches.
    rewrite andb_true_iff, !bool_decide_eq_true. tauto. }
  unfold React.handleDeleteNode. rewrite Hsel, Hg.
  cbn [nodes links meta group_names Vanilla.member mbind outcome_bind JS.bind].
  rewrite (filter_by_ends (λ s t, bool_decide (s ≠ node_id sel)
                                  && bool_decide (t ≠ node_id sel)) ls Hnn).
  cbn [JS.bind]. rewrite Hfilter. fold G'.
  unfold React.filterData.
  cbn [nodes links meta group_names Vanilla.member mbind outcome_bind JS.bind].
  rewrite (filter_by_ends (λ s t, bool_decide (s ∈ _) && bool_decide (t ∈ _)));
    [|by apply forallb_filter].
  cbn [JS.bind].
  eexists. split; [reflexivity|].
  repeat split.
  - apply list.Forall_forall. by intros n [Hn _]%list_elem_of_filter.
  - apply list.Forall_forall. by intros l [Hl _]%list_elem_of_filter.
Qed.

End DeleteFacts.

(** The scenario: on the page with [A-B] and [B-C] loaded and [B]
    selected, all conditions of the deletion hold, and it goes as C8
    says. *)
Lemma delete_then_export_witness :
  React.selectedNode Sample.loaded = Some Sample.B ∧
  React.graphData Sample.loaded = Some Sample.abc ∧
  forallb no_null_end [Sample.AB; Sample.BC] = true ∧
  let G' := {| nodes := Some (filter (λ n, node_id n ≠ node_id Sample.B)
                                     [Sample.A; Sample.B; Sample.C]);
               links := Some (filter (λ l, ¬ touches (node_id Sample.B) l)
                                     [Sample.AB; Sample.BC]);
               meta := Sample.abc_meta; group_names := Sample.abc_group_names |} in
  ∃ st',
    React.handleDeleteNode Sample.loaded = (st', Ok ()) ∧
    React.graphData st' = Some G' ∧
    React.selectedNode st' = None ∧
    React.handleExport React.json st' = Some (JSON_stringify G') ∧
    Forall (λ n, node_id n ≠ node_id Sample.B)
           (filter (λ n, node_id n ≠ node_id Sample.B) [Sample.A; Sample.B; Sample.C]) ∧
    Forall (λ l, ¬ touches (node_id Sample.B) l)
           (filter (λ l, ¬ touches (node_id Sample.B) l) [Sample.AB; Sample.BC]).
Proof.
  split; [reflexivity|]. split; [reflexivity|]. split; [vm_compute; reflexivity|].
  apply (delete_then_export Sample.loaded Sample.B [Sample.A; Sample.B; Sample.C]
           [Sample.AB; Sample.BC] Sample.abc_meta Sample.abc_group_names);
    [reflexivity|reflexivity|vm_compute; reflexivity].
Defined.

(** Deleting [B] from the scenario graph leaves the two nodes [A] and [C]
    and no link, and that is what is exported. *)
Lemma delete_B_leaves_two_nodes_no_links :
  let st' := (React.handleDeleteNode Sample.loaded).1 in
  let G' := {| nodes := Some [Sample.A; Sample.C]; links := Some [];
               meta := Sample.abc_meta; group_names := Sample.abc_group_names |} in
  React.graphData st' = Some G' ∧
  React.handleExport React.json st' = Some (JsonText G').
Proof. split; by vm_compute. Qed.

(* ===================================================================== *)
(** ** Layout                                                             *)
(* ===================================================================== *)

Section LayoutFacts.
Context {engine : Type} `{!D3.Engine engine}.

Lemma tick_loop_spec (n : nat) (sim : D3.simulation engine) :
  D3.ticks (D3.tick_loop n sim) = (D3.ticks sim + n)%nat ∧
  D3.timer_running (D3.tick_loop n sim) = D3.timer_running sim ∧
  D3.alphaTarget (D3.tick_loop n sim) = D3.alphaTarget sim ∧
  D3.state (D3.tick_loop n sim) = Nat.iter n D3.e_step (D3.state sim).
Proof.
  revert sim. induction n as [|n IH]; intros sim; simpl.
  - repeat split. lia.
  - destruct (IH (D3.tick sim)) as (Ht & Hr & Ha & Hs).
    rewrite Ht, Hr, Ha, Hs. simpl. repeat split; [lia|].
    clear. induction n as [|n IH]; simpl; [done|]. by rewrite IH.
Qed.

Lemma iter_step_length (n : nat) (e : engine) :
  length (D3.e_placed (Nat.iter n D3.e_step e)) = length (D3.e_placed e).
Proof.
  induction n as [|n IH]; simpl; [done|]. by rewrite D3.e_step_length.
Qed.

Lemma vanilla_drags_leave_simulation (evs : list Vanilla.drag_event)
    (sim : D3.simulation engine) :
  after_vanilla_drags evs sim = sim.
Proof.
  unfold after_vanilla_drags. induction evs as [|ev evs IH]; simpl; [done|].
  exact IH.
Qed.

Lemma react_layout_spec (ns : list Node) (ls : list Link) (width height : Qc) :
  let sim := React.layout ns ls width height in
  D3.ticks sim = 300%nat ∧
  D3.timer_running sim = false ∧
  D3.state sim
  = Nat.iter 300 D3.e_step (D3.e_load ns ls (D3.e_create (width / 2) (height / 2))) ∧
  length (D3.e_placed (D3.state sim)) = length ns.
Proof.
  intros sim. subst sim. unfold React.layout.
  destruct (tick_loop_spec 300
              (D3.stop (D3.forceSimulation
                 (D3.e_load ns ls (D3.e_create (width / 2) (height / 2))))))
    as (Ht & Hr & _ & Hs).
  rewrite Ht, Hr, Hs. cbn [D3.state D3.ticks D3.timer_running D3.stop D3.forceSimulation].
  repeat split. by rewrite iter_step_length, D3.e_load_length.
Qed.

Lemma vanilla_layout_spec (ns : list Node) (ls : list Link) (width height : Qc) :
  let sim0 := Vanilla.simulation width height in
  let sim := Vanilla.renderGraph_layout ns ls sim0 in
  D3.ticks sim = 300%nat ∧
  D3.timer_running sim = false ∧
  D3.state sim = Nat.iter 300 D3.e_step (D3.e_load ns ls (D3.state sim0)) ∧
  length (D3.e_placed (D3.state sim)) = length ns.
Proof.
  intros sim0 sim. subst sim sim0.
  unfold Vanilla.renderGraph_layout, Vanilla.simulation.
  destruct (tick_loop_spec 300
              (D3.on_state (D3.e_load ns ls)
                 (D3.stop (D3.forceSimulation
                    (D3.e_create (width / 2) (height / 2))))))
    as (Ht & Hr & _ & Hs).
  rewrite Ht, Hr, Hs.
  cbn [D3.state D3.ticks D3.timer_running D3.stop D3.forceSimulation D3.on_state].
  repeat split. by rewrite iter_step_length, D3.e_load_length.
Qed.


End LayoutFacts.


(* ===================================================================== *)
(** ** Filtering by node count                                            *)
(* ===================================================================== *)

Section FilterFacts.

Lemma in_nodeIds_defined (ns : list Node) (e : endpoint) :
  ids_defined ns = true → defined_end e = true →
  in_nodeIds (list_to_set (node_id <$> ns)) e
  = Ok (bool_decide (endpoint_id e ∈ node_id <$> ns)).
Proof.
  intros Hids He.
  assert (PUndef ∉ node_id <$> ns) as Hundef.
  { intros (n & Hn & Hin)%list_elem_of_fmap.
    apply forallb_Forall in Hids. rewrite list.Forall_forall in Hids.
    specialize (Hids n Hin). rewrite negb_true_iff, bool_decide_eq_false in Hids.
    by apply Hids. }
  destruct e as [v|n]; simpl.
  - case_bool_decide as Hv.
    + rewrite elem_of_list_to_set in Hv. by rewrite bool_decide_eq_true_2.
    + rewrite elem_of_list_to_set in Hv. rewrite (bool_decide_eq_false_2 _ Hv).
      destruct v; try done; f_equal; apply bool_decide_eq_false;
        by rewrite elem_of_list_to_set.
  - f_equal. apply bool_decide_ext. by rewrite elem_of_list_to_set.
Qed.

Lemma link_shown_defined (ns : list Node) (l : Link) :
  ids_defined ns = true → ends_defined l = true →
  link_shown (list_to_set (node_id <$> ns)) l
  = Ok (bool_decide (joins (node_id <$> ns) l)).
Proof.
  intros Hids [Hs Ht]%andb_true_iff. unfold link_shown, joins.
  rewrite (in_nodeIds_defined ns _ Hids Hs). cbn [mbind outcome_bind JS.bind].
  case_bool_decide as Hsrc.
  - rewrite (in_nodeIds_defined ns _ Hids Ht). f_equal.
    apply bool_decide_ext. tauto.
  - f_equal. symmetry. apply bool_decide_eq_false. tauto.
Qed.

Lemma ids_defined_take (k : nat) (ns : list Node) :
  ids_defined ns = true → ids_defined (take k ns) = true.
Proof.
  unfold ids_defined. revert k. induction ns as [|n ns IH]; intros [|k]; simpl; try done.
  rewrite !andb_true_iff. intros [Hn Hns]. auto.
Qed.

Lemma ids_defined_slice0 (limit : Z) (ns : list Node) :
  ids_defined ns = true → ids_defined (slice0 limit ns) = true.
Proof. unfold slice0. destruct (limit <? 0)%Z; apply ids_defined_take. Qed.

Lemma filter_links_defined (ns : list Node) (ls : list Link) :
  ids_defined ns = true → forallb ends_defined ls = true →
  filterM (link_shown (list_to_set (node_id <$> ns))) ls
  = Ok (filter (joins (node_id <$> ns)) ls).
Proof.
  intros Hids Hends%forallb_Forall.
  rewrite (filterM_ok_filter _ (λ l, bool_decide (joins (node_id <$> ns) l))).
  - f_equal. apply list_filter_iff. intros l. by rewrite bool_decide_eq_true.
  - rewrite list.Forall_forall in *. intros l Hl.
    by apply link_shown_defined, Hends.
Qed.

(** The vanilla filter on a graph whose ids and link ends are defined. *)
Lemma applyNodeFilter_defined (limit : Z) (st : page) (ns : list Node)
    (ls : list Link) (mt : option Meta) (gn : option (gmap string string)) :
  globalGraphData st
  = Some {| nodes := Some ns; links := Some ls; meta := mt; group_names := gn |} →
  ids_defined ns = true → forallb ends_defined ls = true →
  applyNodeFilter limit st
  = Ok {| globalGraphData := Some (top_graph limit ns ls mt gn);
          currentFile := currentFile st;
          slider_max := slider_max st;
          slider_value := slider_value st |}.
Proof.
  intros Hg Hids Hends. unfold applyNodeFilter. rewrite Hg.
  cbn [nodes links meta group_names member mbind outcome_bind JS.bind].
  rewrite (filter_links_defined _ ls (ids_defined_slice0 limit ns Hids) Hends).
  done.
Qed.

Lemma joins_mono (ids ids' : list prim) (l : Link) :
  ids ⊆ ids' → joins ids l → joins ids' l.
Proof. intros Hsub [Hs Ht]. split; by apply Hsub. Qed.

Lemma filter_filter_impl {A} (P Q : A → Prop) `{∀ x, Decision (P x)}
    `{∀ x, Decision (Q x)} (xs : list A) :
  (∀ x, P x → Q x) → filter P (filter Q xs) = filter P xs.
Proof.
  intros HPQ. induction xs as [|x xs IH]; [done|].
  rewrite !filter_cons. destruct (decide (Q x)) as [HQ|HQ].
  - rewrite filter_cons. destruct (decide (P x)); by rewrite IH.
  - destruct (decide (P x)) as [HP|HP]; [by apply HPQ in HP|done].
Qed.

Lemma forallb_filter_keeps {A} (f : A → bool) (P : A → Prop) `{∀ x, Decision (P x)}
    (xs : list A) :
  forallb f xs = true → forallb f (filter P xs) = true.
Proof.
  induction xs as [|x xs IH]; simpl; [done|].
  rewrite andb_true_iff. intros [Hx Hxs]. rewrite filter_cons.
  case_decide; simpl; [rewrite Hx|]; auto.
Qed.



End FilterFacts.

Section ReactFilterFacts.

Lemma no_null_filter (P : Link → Prop) `{∀ l, Decision (P l)} (ls : list Link) :
  forallb no_null_end ls = true → forallb no_null_end (filter P ls) = true.
Proof. apply forallb_filter_keeps. Qed.

(** [filterData] on a graph without [null] link ends. *)
Lemma filterData_no_null (limit : Z) (ns : list Node) (ls : list Link)
    (mt : option Meta) (gn : option (gmap string string)) :
  forallb no_null_end ls = true →
  React.filterData
    (Some {| nodes := Some ns; links := Some ls; meta := mt; group_names := gn |})
    limit
  = Ok (Some (top_graph limit ns ls mt gn)).
Proof.
  intros Hnn. unfold React.filterData.
  cbn [nodes links meta group_names member mbind outcome_bind JS.bind].
  rewrite (filter_by_ends
             (λ s t, bool_decide (s ∈ (list_to_set (node_id <$> slice0 limit ns)
                                        : gset prim))
                     && bool_decide (t ∈ (list_to_set (node_id <$> slice0 limit ns)
                                           : gset prim))) ls Hnn).
  cbn [mbind outcome_bind JS.bind]. unfold top_graph. do 4 f_equal.
  apply list_filter_iff. intros l. unfold joins.
  rewrite andb_true_iff, !bool_decide_eq_true, !elem_of_list_to_set. tauto.
Qed.

Lemma slice0_nonneg {A} (c : Z) (xs : list A) :
  (0 <= c)%Z → slice0 c xs = take (Z.to_nat c) xs.
Proof. intros Hc. unfold slice0. by rewrite (proj2 (Z.ltb_ge c 0)). Qed.

(** X3.  [filterData] keeps the first [limit] nodes and the links both of
    whose ends are among them, and filtering its own result again with the
    same limit changes nothing. *)
Theorem filterData_idempotent (limit : Z) (ns : list Node) (ls : list Link)
    (mt : option Meta) (gn : option (gmap string string)) :
  (0 <= limit)%Z → forallb no_null_end ls = true →
  ∃ d, React.filterData
         (Some {| nodes := Some ns; links := Some ls; meta := mt; group_names := gn |})
         limit = Ok (Some d) ∧
       nodes d = Some (take (Z.to_nat limit) ns) ∧
       (∃ ls', links d = Some ls' ∧
               ∀ l, l ∈ ls' ↔ l ∈ ls ∧ joins (node_id <$> take (Z.to_nat limit) ns) l) ∧
       React.filterData (Some d) limit = Ok (Some d).
Proof.
  intros Hlim Hnn. eexists. split; [by apply filterData_no_null|].
  unfold top_graph. cbn [nodes links]. rewrite !slice0_nonneg by done.
  split; [done|]. split.
  - eexists. split; [done|]. intros l. rewrite list_elem_of_filter. tauto.
  - rewrite filterData_no_null by by apply no_null_filter.
    unfold top_graph. rewrite !slice0_nonneg by done.
    rewrite take_take, Nat.min_id. do 4 f_equal.
    by apply filter_filter_impl.
Qed.

(** X4.  On the React page the slider filters the intact [graphData] each
    time: after any two range changes the view is the one of the last
    value alone, [graphData] is what it was, and a JSON export still
    writes the whole graph. *)
Theorem range_change_loses_nothing (a b : Z) (st : React.app) (ns : list Node)
    (ls : list Link) (mt : option Meta) (gn : option (gmap string string)) :
  let G := {| nodes := Some ns; links := Some ls; meta := mt; group_names := gn |} in
  React.graphData st = Some G →
  forallb no_null_end ls = true →
  ∃ st_a st_b,
    React.handleNodeRangeChange a st = (st_a, Ok ()) ∧
    React.handleNodeRangeChange b st_a = (st_b, Ok ()) ∧
    React.filteredData st_b = Some (top_graph b ns ls mt gn) ∧
    React.nodeCount st_b = b ∧
    React.graphData st_b = Some G ∧
    React.handleExport React.json st_b = Some (JSON_stringify G).
Proof.
  intros G Hg Hnn. subst G. unfold React.handleNodeRangeChange.
  rewrite Hg, (filterData_no_null a ns ls mt gn Hnn).
  eexists _, _. split; [reflexivity|].
  cbn [React.graphData React.setFilteredData React.setNodeCount].
  rewrite Hg, (filterData_no_null b ns ls mt gn Hnn).
  split; [reflexivity|].
  cbn [React.graphData React.filteredData React.nodeCount React.setFilteredData
       React.setNodeCount].
  repeat split; try done.
  unfold React.handleExport.
  cbn [React.graphData React.filteredData React.setFilteredData React.setNodeCount].
  by rewrite Hg.
Qed.

(** X5.  A successful import on the React page installs the parsed graph
    whole as [graphData], shows its first 200 nodes at most, and takes the
    statistics from its [meta]; the selection is left as it was. *)
Theorem react_import_installs_graph (st : React.app) (ns : list Node)
    (ls : list Link) (mt : option Meta) (gn : option (gmap string string)) :
  let G := {| nodes := Some ns; links := Some ls; meta := mt; group_names := gn |} in
  let shown := Z.min 200 (Z.of_nat (length ns)) in
  forallb no_null_end ls = true →
  ∃ st',
    React.handleImport (JsonText G) st = (st', Ok ()) ∧
    React.graphData st' = Some G ∧
    React.nodeCount st' = shown ∧
    React.filteredData st' = Some (top_graph shown ns ls mt gn) ∧
    React.stats st' = (m ← mt; meta_stats m) ∧
    React.selectedNode st' = React.selectedNode st.
Proof.
  intros G shown Hnn. subst G. unfold React.handleImport.
  cbn [JSON_parse nodes meta]. fold shown.
  rewrite (filterData_no_null shown ns ls mt gn Hnn).
  eexists. split; [reflexivity|]. by repeat split.
Qed.

End ReactFilterFacts.

Section VanillaImportFacts.

Variable ts : Qc → string.
Variable pI : prim → option Z.
Variable fn : string.


End VanillaImportFacts.

(* ===================================================================== *)
(** ** More on the tabular codecs                                         *)
(* ===================================================================== *)

Section CodecEdgeFacts.

Variable ts : Qc → string.
Variable pI : prim → option Z.
Variable fn : string.

(** X7.  A tabular decode fails exactly when the table of nodes or the
    table of links is missing, whatever the cells hold; a missing "Meta"
    sheet or [meta] table is no error, and the meta is then made of the
    name of the imported file and the numbers of decoded nodes and
    links. *)
Theorem tabular_decode_fails_only_on_missing_tables (wb : workbook) (db : database) :
  (is_ok (decodeWorkbook ts pI fn wb) = true
   ↔ is_Some (Sheet_Nodes wb) ∧ is_Some (Sheet_Links wb)) ∧
  (is_ok (decodeSQLite ts pI fn db) = true
   ↔ is_Some (tbl_nodes db) ∧ is_Some (tbl_links db)) ∧
  (∀ g, decodeWorkbook ts pI fn wb = Ok g → Sheet_Meta wb = None →
        ∃ ns ls, nodes g = Some ns ∧ links g = Some ls ∧
                 meta g = Some (default_meta fn ns ls)) ∧
  (∀ g, decodeSQLite ts pI fn db = Ok g → tbl_meta db = None →
        ∃ ns ls, nodes g = Some ns ∧ links g = Some ls ∧
                 meta g = Some (default_meta fn ns ls)).
Proof.
  unfold decodeWorkbook, decodeSQLite.
  destruct wb as [[rawNodes|] [rawLinks|] mS], db as [[nt|] [lt|] mT];
    cbn [Sheet_Nodes Sheet_Links Sheet_Meta tbl_nodes tbl_links tbl_meta is_ok].
  all: repeat split; try done.
  all: try (intros [[? ?] [? ?]]; done).
  all: try (intros g [= <-] ->; eexists _, _; by repeat split).
Qed.

Lemma meta_row_cells (k : string) (v : prim) :
  let row := sheet_row [("key", PStr k); ("value", v)] in
  get row "key" = PStr k ∧ get row "value" = (if blank v then PUndef else v).
Proof. by destruct v. Qed.

Lemma or_else_blank (v d : prim) :
  or_else (if blank v then PUndef else v) d = or_else v d.
Proof. by destruct v. Qed.

Lemma excel_meta_decoded (m : Meta) (ns : list Node) (ls : list Link) :
  let metaObj :=
    foldl (λ metaObj item,
             <[property_key ts (get item "key") := get item "value"]> metaObj)
          ∅ (excel_meta_rows m) in
  meta_file (rebuilt_meta pI fn metaObj ns ls) = or_else (meta_file m) (PStr fn) ∧
  meta_duration (rebuilt_meta pI fn metaObj ns ls)
  = or_else (meta_duration m) (PStr "N/A").
Proof.
  unfold excel_meta_rows. cbn [foldl rebuilt_meta meta_file meta_duration].
  repeat match goal with
  | |- context [sheet_row [("key", PStr ?k); ("value", ?v)]] =>
      let H1 := fresh in let H2 := fresh in
      destruct (meta_row_cells k v) as [H1 H2]; rewrite H1, H2; clear H1 H2
  end.
  cbn [property_key]. unfold get.
  repeat first [rewrite lookup_insert_eq | rewrite lookup_insert_ne by done].
  cbn [default from_option id]. by rewrite !or_else_blank.
Qed.

Lemma sqlite_meta_decoded (m : Meta) (rows : list (list prim))
    (ns : list Node) (ls : list Link) :
  sqlite_meta_rows ts m = Ok rows →
  ∃ row rest, rows = row :: rest ∧
  let metaObj :=
    foldl (λ metaObj row,
             <[property_key ts (default PUndef (row !! 0%nat))
               := default PUndef (row !! 1%nat)]> metaObj)
          ∅ rows in
  meta_file (rebuilt_meta pI fn metaObj ns ls) = or_else (meta_file m) (PStr fn) ∧
  meta_duration (rebuilt_meta pI fn metaObj ns ls)
  = or_else (meta_duration m) (PStr "N/A").
Proof.
  unfold sqlite_meta_rows.
  destruct (meta_stats m) as [[a b]|];
    cbn [mbind outcome_bind JS.bind stats_nodes stats_links].
  - destruct (toString ts a) as [a'|]; cbn [mbind outcome_bind JS.bind]; [|done].
    destruct (toString ts b) as [b'|]; cbn [mbind outcome_bind JS.bind]; [|done].
    intros [= <-]. eexists _, _. split; [reflexivity|].
    cbn [foldl app rebuilt_meta meta_file meta_duration lookup list_lookup
         default from_option id property_key].
    unfold get.
    by repeat first [rewrite lookup_insert_eq | rewrite lookup_insert_ne by done].
  - intros [= <-]. eexists _, _. split; [reflexivity|].
    cbn [foldl app rebuilt_meta meta_file meta_duration lookup list_lookup
         default from_option id property_key].
    unfold get.
    by repeat first [rewrite lookup_insert_eq | rewrite lookup_insert_ne by done].
Qed.


End CodecEdgeFacts.

(* ===================================================================== *)
(** ** The tables of the SQLite exporter                                  *)
(* ===================================================================== *)

Section SQLiteTableFacts.

Variable ts : Qc → string.

Lemma nodeMap_lookup_index (ns : list Node) (i : nat) (n : Node) :
  NoDup (node_id <$> ns) → ns !! i = Some n →
  nodeMap ns !! node_id n = Some (1 + Z.of_nat i)%Z.
Proof.
  intros Hnd Hi.
  assert (node_id n ∈ node_id <$> ns) as Hin.
  { apply list_elem_of_fmap. exists n. split; [done|].
    by eapply list_elem_of_lookup_2. }
  destruct (nodeMap_from_in ns 1 ∅ _ Hin) as (j & n' & Hj & Hid & Hl).
  assert (i = j) as ->; [|exact Hl].
  eapply NoDup_lookup; [exact Hnd| |]; rewrite list_lookup_fmap.
  - by rewrite Hi.
  - rewrite Hj. simpl. by rewrite Hid.
Qed.

Lemma nodeMap_get_in_id_cells (ns : list Node) (e : endpoint) (k : Z) (cols : list string) :
  nodeMap_get (nodeMap ns) e = Some k →
  num k ∈ id_cells {| columns := cols; values := sqlite_node_row (nodeMap ns) <$> ns |}.
Proof.
  destruct e as [v|nd]; [|done]. cbn [nodeMap_get]. intros Hk.
  destruct (nodeMap_lookup ns v k Hk) as (i & n & Hi & Hid & _).
  unfold id_cells. cbn [values]. apply list_elem_of_fmap.
  exists (sqlite_node_row (nodeMap ns) n). split.
  - unfold sqlite_node_row. cbn [lookup list_lookup]. by rewrite Hid, Hk.
  - apply list_elem_of_fmap. exists n. split; [done|].
    by eapply list_elem_of_lookup_2.
Qed.

Lemma truthy_id_Some (o : option Z) :
  truthy_id o = true → ∃ k, o = Some k.
Proof. destruct o; [by eexists|done]. Qed.

Lemma omap_length_le {A B} (f : A → option B) (xs : list A) :
  (length (omap f xs) ≤ length xs)%nat.
Proof.
  induction xs as [|x xs IH]; csimpl; [done|].
  destruct (f x); simpl; lia.
Qed.


(** X10.  Every row the SQLite exporter writes to [links] refers, at both
    ends, to an [id] of the [nodes] table of the same file: a link to a
    node that the graph does not have is left out, never written with a
    missing reference. *)
Theorem sqlite_links_refer_to_node_rows (G : GraphData) (db : database) :
  exportDataToSQLite ts (Some G) = Ok (Some db) →
  ∃ nt lt ls, tbl_nodes db = Some nt ∧ tbl_links db = Some lt ∧
              links G = Some ls ∧
              (length (values lt) ≤ length ls)%nat ∧
              Forall (λ row, ∃ s t w, row = [s; t; w] ∧
                                      s ∈ id_cells nt ∧ t ∈ id_cells nt)
                     (values lt).
Proof.
  unfold exportDataToSQLite.
  destruct (nodes G) as [ns|]; simpl; [|done].
  case_bool_decide as Hnd; simpl; [|done].
  destruct (links G) as [ls|]; simpl; [|done].
  destruct (mapM (sqlite_link_row (nodeMap ns)) ls) as [linkRows|] eqn:Hrows;
    simpl; [|done].
  destruct (match meta G with
            | Some mt => sqlite_meta_rows ts mt ≫= λ r, Ok (Some r)
            | None => Ok None
            end) as [metaRows|]; simpl; [|done].
  intros [= <-]. eexists _, _, ls. cbn [tbl_nodes tbl_links values].
  split; [reflexivity|]. split; [reflexivity|]. split; [reflexivity|].
  apply mapM_ok_inv in Hrows. split.
  - rewrite (Forall2_length _ _ _ Hrows). apply omap_length_le.
  - apply list.Forall_forall. intros row Hrow.
    apply list_elem_of_omap in Hrow as (o & Ho & Ho').
    unfold id in Ho'. subst o.
    apply list_elem_of_lookup_1 in Ho as [i Hi].
    destruct (Forall2_lookup_r _ _ _ _ _ Hrows Hi) as (l & _ & Hl).
    unfold sqlite_link_row in Hl.
    destruct (getId (source l)) as [sl|]; simpl in Hl; [|done].
    destruct (getId (target l)) as [tl|]; simpl in Hl; [|done].
    destruct (truthy_id (nodeMap_get (nodeMap ns) sl)) eqn:Hs; simpl in Hl; [|done].
    destruct (truthy_id (nodeMap_get (nodeMap ns) tl)) eqn:Ht; simpl in Hl; [|done].
    apply truthy_id_Some in Hs as [ks Hks]. apply truthy_id_Some in Ht as [kt Hkt].
    rewrite Hks, Hkt in Hl. injection Hl as <-. simpl.
    eexists _, _, _. split; [reflexivity|].
    split; by eapply nodeMap_get_in_id_cells.
Qed.

Lemma getId_same (e e' : endpoint) :
  endpoint_id e = endpoint_id e' → truthy (endpoint_id e) = true →
  getId e = getId e'.
Proof.
  destruct e as [v|nd], e' as [v'|nd']; cbn [endpoint_id getId].
  - by intros ->.
  - intros -> Ht. rewrite Ht. by destruct (node_id nd').
  - intros <- Ht. rewrite Ht. by destruct (node_id nd).
  - intros Hid Ht. by rewrite <- Hid, Ht.
Qed.

Lemma mapM_same {A B} (f : A → outcome B) (xs ys : list A) :
  Forall2 (λ x y, f x = f y) xs ys → mapM f xs = mapM f ys.
Proof.
  induction 1 as [|x y xs ys Hxy _ IH]; simpl; [done|]. by rewrite Hxy, IH.
Qed.

(** X11.  Both tabular exporters read a link end through its id only:
    when every end has a truthy id, the file is the same whether an end
    is still the raw id or is the node object that d3 has put in its
    place. *)
Theorem export_same_for_resolved_ends (ns : list Node) (ls ls' : list Link)
    (mt : option Meta) (gn : option (gmap string string)) :
  Forall2 same_link ls ls' →
  forallb named_ends ls = true →
  let G := {| nodes := Some ns; links := Some ls; meta := mt; group_names := gn |} in
  let G' := {| nodes := Some ns; links := Some ls'; meta := mt; group_names := gn |} in
  exportDataToExcel (Some G) = exportDataToExcel (Some G') ∧
  exportDataToSQLite ts (Some G) = exportDataToSQLite ts (Some G').
Proof.
  intros Hsame Hnamed G G'. subst G G'.
  assert (Forall2 (λ l l', getId (source l) = getId (source l') ∧
                           getId (target l) = getId (target l') ∧
                           link_weight l = link_weight l') ls ls') as Hall.
  { clear -Hsame Hnamed.
    induction Hsame as [|l l' ls ls' (Hs & Ht & Hw) _ IH]; constructor;
      cbn [forallb] in Hnamed; apply andb_true_iff in Hnamed as [Hn Hrest].
    - apply andb_true_iff in Hn as [H1 H2].
      repeat split; [by apply getId_same..|done].
    - by apply IH. }
  split.
  - unfold exportDataToExcel. cbn [nodes links meta member mbind outcome_bind JS.bind].
    destruct (mapM excel_node_row ns) as [nodesArr|];
      cbn [mbind outcome_bind JS.bind]; [|done].
    rewrite (mapM_same excel_link_row ls ls'); [done|].
    eapply Forall2_impl; [exact Hall|]. intros l l' (Hs & Ht & Hw).
    unfold excel_link_row. by rewrite Hs, Ht, Hw.
  - unfold exportDataToSQLite. cbn [nodes links meta member mbind outcome_bind JS.bind].
    case_bool_decide; cbn [mbind outcome_bind JS.bind]; [|done].
    rewrite (mapM_same (sqlite_link_row (nodeMap ns)) ls ls'); [done|].
    eapply Forall2_impl; [exact Hall|]. intros l l' (Hs & Ht & Hw).
    unfold sqlite_link_row. by rewrite Hs, Ht, Hw.
Qed.

End SQLiteTableFacts.

(* ===================================================================== *)
(** ** Rounding twice                                                     *)
(* ===================================================================== *)

Section RoundingFacts.

Lemma Qfloor_half (n : Z) (q : Q) :
  (q == inject_Z n + (1 # 2))%Q → Qfloor q = n.
Proof.
  intros Hq.
  pose proof (Qfloor_le q) as H1. pose proof (Qlt_floor q) as H2.
  set (f := Qfloor q) in *. clearbody f.
  rewrite Hq in H1, H2.
  assert (inject_Z f < inject_Z (n + 1))%Q as H3.
  { rewrite inject_Z_plus. change (inject_Z 1) with 1%Q. lra. }
  assert (inject_Z n < inject_Z (f + 1))%Q as H4 by lra.
  rewrite <- Zlt_Qlt in H3, H4. lia.
Qed.

Lemma round_hundredths_fixed (x : Qc) (n : Z) :
  (x == n # 100)%Q → round_hundredths x = x.
Proof.
  intros Hx. apply Qc_is_canon. unfold round_hundredths. cbn [this Q2Qc].
  rewrite Qred_correct, (Qfloor_half n); [by rewrite Hx|].
  rewrite Hx, Qmake_hundredths. change (1 / 2)%Q with (1 # 2)%Q.
  generalize (inject_Z n). intros z. field.
Qed.

Lemma toFixed2_hundredth (x : Qc) :
  Qle_bool (10 ^ 21) (Qabs x) = false → ∃ n : Z, (toFixed2 x == n # 100)%Q.
Proof.
  intros Hg. unfold toFixed2. rewrite Hg.
  destruct (Qle_bool 0 x).
  - eexists. unfold round_hundredths. cbn [this Q2Qc]. apply Qred_correct.
  - exists (- Qfloor (Q2Qc (- x) * 100 + 1 / 2))%Z.
    unfold round_hundredths. cbn [this Q2Qc]. by rewrite !Qred_correct.
Qed.

Lemma toFixed2_idempotent (x : Qc) : toFixed2 (toFixed2 x) = toFixed2 x.
Proof.
  destruct (Qle_bool (10 ^ 21) (Qabs x)) eqn:Hg.
  { unfold toFixed2 at 2. rewrite Hg. unfold toFixed2. by rewrite Hg. }
  destruct (toFixed2_hundredth x Hg) as [n Hn].
  generalize dependent (toFixed2 x). intros y Hy.
  unfold toFixed2.
  destruct (Qle_bool (10 ^ 21) (Qabs y)); [done|].
  destruct (Qle_bool 0 y).
  - by apply (round_hundredths_fixed y n).
  - rewrite (round_hundredths_fixed (Q2Qc (- y)) (- n)).
    + apply Qc_is_canon. cbn [this Q2Qc]. rewrite !Qred_correct.
      apply Qopp_involutive.
    + cbn [this Q2Qc]. rewrite Qred_correct, Hy. reflexivity.
Qed.

(** X12.  Rounding to two decimals is stable: a weight that an Excel
    export has written is written unchanged by the next one, so only the
    first Excel round trip can move a weight. *)
Theorem rounded_weight_is_stable (w v : prim) :
  Number_toFixed2 w = Ok v → Number_toFixed2 v = Ok v.
Proof.
  destruct w as [| |q|s]; try done. intros [= <-].
  cbn [Number_toFixed2]. by rewrite toFixed2_idempotent.
Qed.

End RoundingFacts.

(* ===================================================================== *)
(** ** The highlight on the two pages                                     *)
(* ===================================================================== *)

Section HighlightAgreement.

Lemma isConnected_touches (d : Node) (l : Link) :
  isConnected d l = true ↔ touches (node_id d) l.
Proof.
  unfold isConnected, touches. by rewrite orb_true_iff, !bool_decide_eq_true.
Qed.

Lemma opaque_not_dimmed : opaque_ ≠ dimmed.
Proof. intros H. apply (f_equal this) in H. by vm_compute in H. Qed.

Lemma vanilla_neighborIds_linked (d : Node) (ls : list Link) :
  Exists (touches (node_id d)) ls →
  Vanilla.neighborIds d ls = React.neighborIds d ls.
Proof.
  intros (l0 & Hin0 & Ht0)%list.Exists_exists. apply set_eq. intros m.
  rewrite vanilla_neighborIds_spec, react_neighborIds_spec. split.
  - intros (l & Hin & Hc%isConnected_touches & Hm).
    destruct Hc as [Hs|Ht], Hm as [->| ->].
    + by left.
    + right. exists l. split; [done|]. by left.
    + right. exists l. split; [done|]. by right.
    + by left.
  - intros [->|(l & Hin & [[Hs Ht]|[Hs Ht]])].
    + exists l0. split; [done|]. split; [by apply isConnected_touches|].
      destruct Ht0 as [H|H]; [by left|by right].
    + exists l. split; [done|]. split; [apply isConnected_touches; by left|by right].
    + exists l. split; [done|]. split; [apply isConnected_touches; by right|by left].
Qed.

Lemma vanilla_neighborIds_unlinked (d : Node) (ls : list Link) :
  ¬ Exists (touches (node_id d)) ls → Vanilla.neighborIds d ls = ∅.
Proof.
  intros Hno. apply set_eq. intros m. rewrite vanilla_neighborIds_spec. split.
  - intros (l & Hin & Hc%isConnected_touches & _). destruct Hno.
    apply list.Exists_exists. eauto.
  - by intros ?%elem_of_empty.
Qed.

(** X13.  When the selected node has at least one link among the drawn
    ones, the vanilla page and the React page highlight alike: the same
    set of neighbours, and the same opacity for every node and link. *)
Theorem highlight_same_for_linked_node (d : Node) (sc : scene) :
  Exists (touches (node_id d)) (drawn_links sc) →
  Vanilla.neighborIds d (drawn_links sc) = React.neighborIds d (drawn_links sc) ∧
  Vanilla.highlightNeighbors d sc
  = React.highlight (Some d) (drawn_nodes sc) (drawn_links sc).
Proof.
  intros Hex. pose proof (vanilla_neighborIds_linked d _ Hex) as Heq.
  split; [done|].
  unfold Vanilla.highlightNeighbors, React.highlight.
  cbn [resetHighlight drawn_nodes drawn_links]. rewrite Heq. f_equal.
  apply list_fmap_ext. intros _ n _.
  case_bool_decide as Hin; [done|]. case_bool_decide as Hid; [|done].
  destruct Hin. apply react_neighborIds_spec. by left.
Qed.

(** X14.  The number shown under the selected node is, on both pages, the
    number of distinct ids other than its own that a link joins it to;
    several links to one node count once and a link from the node to
    itself does not count. *)
Theorem neighbour_count_is_number_of_linked_ids (d : Node) (ls : list Link) :
  ∃ N : gset prim,
    (∀ m, m ∈ N ↔ m ≠ node_id d ∧ joined ls (node_id d) m) ∧
    React.neighbor_count d ls = Z.of_nat (size N) ∧
    Vanilla.neighbor_count d ls = Z.of_nat (size N).
Proof.
  exists (React.neighborIds d ls ∖ {[node_id d]}).
  assert (∀ m, m ∈ React.neighborIds d ls ∖ {[node_id d]}
               ↔ m ≠ node_id d ∧ joined ls (node_id d) m) as HN.
  { intros m. rewrite elem_of_difference, react_neighborIds_spec, elem_of_singleton.
    tauto. }
  assert (size (React.neighborIds d ls)
          = S (size (React.neighborIds d ls ∖ {[node_id d]}))) as Hsize.
  { rewrite (union_difference_L {[node_id d]} (React.neighborIds d ls)) at 1.
    - rewrite size_union by set_solver. by rewrite size_singleton.
    - apply singleton_subseteq_l, react_neighborIds_spec. by left. }
  split; [exact HN|]. split.
  - unfold React.neighbor_count. rewrite Hsize. lia.
  - unfold Vanilla.neighbor_count.
    destruct (decide (Exists (touches (node_id d)) ls)) as [Hex|Hno].
    + rewrite (vanilla_neighborIds_linked d ls Hex), Hsize. lia.
    + rewrite (vanilla_neighborIds_unlinked d ls Hno), size_empty.
      assert (React.neighborIds d ls ∖ {[node_id d]} = ∅) as ->.
      { apply set_eq. intros m. rewrite HN. split; [|by intros ?%elem_of_empty].
        intros (_ & l & Hin & Hj). destruct Hno. apply list.Exists_exists.
        exists l. split; [done|]. unfold touches. tauto. }
      by rewrite size_empty.
Qed.

(** X15.  With a node selected, the React page leaves the drawn nodes and
    links as they are and gives each of them one of two opacities: full
    for the selected node, for every node a link joins it to and for
    every link that touches it, and 0.1 for all the rest. *)
Theorem react_highlight_opacity (d : Node) (ns : list Node) (ls : list Link) :
  let sc := React.highlight (Some d) ns ls in
  drawn_nodes sc = ns ∧ drawn_links sc = ls ∧
  Forall2 (λ n o, (o = opaque_ ∨ o = dimmed) ∧
                  (o = opaque_ ↔ node_id n = node_id d
                                 ∨ joined ls (node_id d) (node_id n)))
          ns (node_opacity sc) ∧
  Forall2 (λ l o, (o = opaque_ ∨ o = dimmed) ∧ (o = opaque_ ↔ touches (node_id d) l))
          ls (link_opacity sc).
Proof.
  cbn [React.highlight drawn_nodes drawn_links node_opacity link_opacity].
  split; [done|]. split; [done|].
  pose proof opaque_not_dimmed as Hne. split.
  - apply Forall2_fmap_r, Forall_Forall2_diag, list.Forall_forall. intros n _.
    pose proof (react_neighborIds_spec d ls (node_id n)) as Hspec.
    unfold compose.
    destruct (bool_decide (node_id n ∈ React.neighborIds d ls)) eqn:Hin;
      [|destruct (bool_decide (node_id n = node_id d)) eqn:Hid].
    + apply bool_decide_eq_true in Hin.
      split; [by left|]. split; [intros _; by apply Hspec|done].
    + apply bool_decide_eq_true in Hid.
      split; [by left|]. split; [intros _; by left|done].
    + apply bool_decide_eq_false in Hin.
      split; [by right|]. split; [intros Ho; by destruct Hne|].
      intros Hr. destruct Hin. by apply Hspec.
  - apply Forall2_fmap_r, Forall_Forall2_diag, list.Forall_forall. intros l _.
    pose proof (isConnected_touches d l) as Hspec.
    unfold compose. destruct (isConnected d l).
    + split; [by left|]. split; [intros _; by apply Hspec|done].
    + split; [by right|]. split; [intros Ho; by destruct Hne|].
      intros Ht. by apply Hspec in Ht.
Qed.

End HighlightAgreement.

(* ===================================================================== *)
(** ** Group names and the legend                                         *)
(* ===================================================================== *)

Section GroupFacts.

Lemma Group_label_not_empty (g : option Z) : Group_label g ≠ "".
Proof. done. Qed.

Lemma name_or_not_empty (names : gmap string string) (k fallback : string) :
  fallback ≠ "" → name_or names k fallback ≠ "".
Proof.
  intros Hf. unfold name_or. destruct (names !! k) as [s|]; [|done].
  by case_bool_decide.
Qed.

Lemma name_or_twice (names : gmap string string) (k fallback : string) :
  name_or names k (name_or names k fallback) = name_or names k fallback.
Proof.
  unfold name_or. destruct (names !! k) as [s|]; [|done]. by case_bool_decide.
Qed.


End GroupFacts.

Section LegendFacts.

Lemma Set_values_from {A} `{EqDecision A} (xs acc : list A) :
  NoDup acc →
  let r := foldl (λ acc x, if bool_decide (x ∈ acc) then acc else (acc ++ [x])%list)
                 acc xs in
  NoDup r ∧ ∀ x, x ∈ r ↔ x ∈ acc ∨ x ∈ xs.
Proof.
  revert acc. induction xs as [|y xs IH]; intros acc Hnd; cbn [foldl].
  - split; [done|]. intros x. rewrite elem_of_nil. tauto.
  - case_bool_decide as Hy.
    + destruct (IH acc Hnd) as [H1 H2]. split; [done|].
      intros x. rewrite H2, elem_of_cons. split; [tauto|].
      intros [?|[->|?]]; tauto.
    + destruct (IH (acc ++ [y])%list) as [H1 H2].
      { apply NoDup_app. split; [done|]. split; [|apply NoDup_singleton].
        intros x Hx ->%list_elem_of_singleton. done. }
      split; [done|]. intros x.
      rewrite H2, elem_of_app, list_elem_of_singleton, elem_of_cons. tauto.
Qed.

Lemma Set_values_spec {A} `{EqDecision A} (xs : list A) :
  NoDup (Set_values xs) ∧ ∀ x, x ∈ Set_values xs ↔ x ∈ xs.
Proof.
  destruct (Set_values_from xs [] (NoDup_nil_2)) as [H1 H2]. split; [done|].
  intros x. unfold Set_values. rewrite H2, elem_of_nil. tauto.
Qed.

Lemma NoDup_omap_id {A} (l : list (option A)) : NoDup l → NoDup (omap id l).
Proof.
  induction 1 as [|o l Hnot _ IH]; csimpl; [constructor|].
  destruct o as [a|]; simpl; [|done]. constructor; [|done].
  intros (o & Ho & Heq)%list_elem_of_omap. unfold id in Heq. by subst o.
Qed.

Lemma strictly_sorted (l : list Z) :
  StronglySorted Z.le l → NoDup l → StronglySorted Z.lt l.
Proof.
  induction 1 as [|x l _ IH Hall]; intros Hnd; [constructor|].
  apply NoDup_cons in Hnd as [Hx Hnd]. constructor; [by apply IH|].
  apply list.Forall_forall. intros y Hy.
  rewrite list.Forall_forall in Hall. specialize (Hall y Hy).
  assert (x ≠ y) by (by intros ->). lia.
Qed.

Lemma legend_groups_elem (ns : list Node) (g : Z) :
  g ∈ legend_groups ns ↔ ∃ n, n ∈ ns ∧ node_group n = Some g.
Proof.
  unfold legend_groups. rewrite merge_sort_Permutation, list_elem_of_omap.
  destruct (Set_values_spec (node_group <$> ns)) as [_ Hin]. split.
  - intros (o & Ho & Heq). unfold id in Heq. subst o.
    apply Hin, list_elem_of_fmap in Ho as (n & Hn & Hnin). by exists n.
  - intros (n & Hn & Hg). exists (Some g). split; [|done].
    apply Hin, list_elem_of_fmap. by exists n.
Qed.

Lemma legend_label_not_empty (gn : option (gmap string string)) (g : Z) :
  legend_label gn g ≠ "".
Proof.
  unfold legend_label. destruct gn as [names|]; [|done].
  cbv zeta. by case_bool_decide.
Qed.


End LegendFacts.

(* ===================================================================== *)
(** ** Context search and its pages                                       *)
(* ===================================================================== *)

Section SearchFacts.

Context {char : Type} `{EqDecision char} (terminator : char → bool).

Lemma shape_snoc_body (acc : list char) (c : char) :
  acc ≠ [] → Forall (λ c, terminator c = false) acc → terminator c = true →
  sentence_shape terminator (acc ++ [c]).
Proof.
  intros Hne Hacc Hc. exists acc, [c]. repeat split; [done..|].
  by apply Forall_singleton.
Qed.

Lemma shape_snoc_tail (acc : list char) (c : char) :
  sentence_shape terminator acc → terminator c = true →
  sentence_shape terminator (acc ++ [c]).
Proof.
  intros (body & tail & -> & Hb & Ht & Hfb & Hft) Hc.
  exists body, (tail ++ [c])%list. rewrite <- (assoc_L app).
  repeat split; [done| |done|].
  - by destruct tail.
  - apply Forall_app. split; [done|]. by apply Forall_singleton.
Qed.

(** What a scan that has reached a given state makes of the rest of the
    text. *)
Lemma scan_text_spec (text : list char) (s : scan) :
  let R := scan_text terminator s text in
  match s with
  | Outside =>
      Forall (sentence_shape terminator) R ∧
      ∃ lead rest, text = (lead ++ concat R ++ rest)%list ∧
                   Forall (λ c, terminator c = true) lead ∧ Forall (λ c, terminator c = false) rest
  | InBody acc =>
      acc ≠ [] → Forall (λ c, terminator c = false) acc →
      Forall (sentence_shape terminator) R ∧
      ∃ rest, (acc ++ text = concat R ++ rest)%list ∧ Forall (λ c, terminator c = false) rest
  | InTail acc =>
      sentence_shape terminator acc →
      Forall (sentence_shape terminator) R ∧
      ∃ rest, (acc ++ text = concat R ++ rest)%list ∧ Forall (λ c, terminator c = false) rest
  end.
Proof.
  intros R. subst R. revert s.
  induction text as [|c text IH]; intros s.
  - destruct s as [|acc|acc]; cbn [scan_text].
    + split; [constructor|]. by exists [], [].
    + intros _ Hacc. split; [constructor|]. exists acc.
      by rewrite (right_id_L [] app).
    + intros Hacc. split; [by repeat constructor|]. exists [].
      split; [|constructor]. cbn [concat]. by rewrite !(right_id_L [] app).
  - destruct s as [|acc|acc]; cbn [scan_text];
      destruct (terminator c) eqn:Hc.
    + destruct (IH Outside) as (Hsh & lead & rest & Heq & Hl & Hr).
      split; [done|]. exists (c :: lead), rest.
      split; [by rewrite Heq at 1|]. split; [by constructor|done].
    + destruct (IH (InBody [c])) as (Hsh & rest & Heq & Hr);
        [done|by apply Forall_singleton|].
      split; [done|]. exists [], rest. by split.
    + intros Hne Hacc.
      destruct (IH (InTail (acc ++ [c])%list)) as (Hsh & rest & Heq & Hr);
        [by apply shape_snoc_body|].
      split; [done|]. exists rest. split; [|done].
      by rewrite <- Heq, <- (assoc_L app).
    + intros Hne Hacc.
      destruct (IH (InBody (acc ++ [c])%list)) as (Hsh & rest & Heq & Hr).
      { by destruct acc. }
      { apply Forall_app. split; [done|]. by apply Forall_singleton. }
      split; [done|]. exists rest. split; [|done].
      by rewrite <- Heq, <- (assoc_L app).
    + intros Hacc.
      destruct (IH (InTail (acc ++ [c])%list)) as (Hsh & rest & Heq & Hr);
        [by apply shape_snoc_tail|].
      split; [done|]. exists rest. split; [|done].
      by rewrite <- Heq, <- (assoc_L app).
    + intros Hacc.
      destruct (IH (InBody [c])) as (Hsh & rest & Heq & Hr);
        [done|by apply Forall_singleton|].
      split; [by constructor|]. exists rest. split; [|done].
      cbn [concat]. rewrite <- (assoc_L app), <- Heq. done.
Qed.

(** X18.  The sentences that the context search cuts a text into are
    each a non-empty run of ordinary units closed by a non-empty run of
    terminators, and together they are the text itself, in order, less
    the terminators that open it and less a last run that no terminator
    closes. *)
Theorem sentences_cover_text (text : list char) :
  Forall (sentence_shape terminator) (sentences terminator text) ∧
  ∃ lead rest,
    text = (lead ++ concat (sentences terminator text) ++ rest)%list ∧
    Forall (λ c, terminator c = true) lead ∧ Forall (λ c, terminator c = false) rest.
Proof. apply (scan_text_spec text Outside). Qed.

Lemma starts_with_spec (kw s : list char) :
  starts_with kw s = true ↔ ∃ post, s = (kw ++ post)%list.
Proof.
  revert s. induction kw as [|a kw IH]; intros s; cbn [starts_with].
  - split; [|done]. intros _. by exists s.
  - destruct s as [|b s].
    + split; [done|]. by intros [post [=]].
    + rewrite andb_true_iff, bool_decide_eq_true, IH. split.
      * intros [-> [post ->]]. by exists post.
      * intros [post [= -> ->]]. split; [done|]. by exists post.
Qed.

Lemma contains_spec (kw s : list char) :
  contains kw s = true ↔ ∃ pre post, s = (pre ++ kw ++ post)%list.
Proof.
  induction s as [|b s IH]; cbn [contains]; rewrite orb_true_iff, starts_with_spec.
  - split.
    + intros [[post Hp]|?]; [|done]. by exists [], post.
    + intros (pre & post & Heq). left. symmetry in Heq.
      apply app_eq_nil in Heq as [-> Heq]. by exists post.
  - rewrite IH. split.
    + intros [[post Hp]|(pre & post & ->)]; [by exists [], post|].
      by exists (b :: pre), post.
    + intros (pre & post & Heq). destruct pre as [|b' pre].
      * left. by exists post.
      * right. injection Heq as -> ->. by exists pre, post.
Qed.

(** X19.  A search shows the first page of ten and finds, in the order
    of the text, exactly the sentences in which the keyword occurs as it
    is written; the empty keyword finds them all. *)
Theorem search_finds_sentences_with_keyword (text kw : list char) :
  let st := performSearch terminator text kw in
  keyword st = kw ∧ current_page st = 1%Z ∧ pageSize st = 10%Z ∧
  results st `sublist_of` sentences terminator text ∧
  (∀ s, s ∈ results st ↔
        s ∈ sentences terminator text ∧ ∃ pre post, s = (pre ++ kw ++ post)%list) ∧
  (kw = [] → results st = sentences terminator text).
Proof.
  cbn [performSearch keyword current_page pageSize results].
  split; [done|]. split; [done|]. split; [done|].
  split; [apply sublist_filter|]. split.
  - intros s. rewrite list_elem_of_filter, contains_spec. tauto.
  - intros ->. induction (sentences terminator text) as [|s ss IH]; [done|].
    rewrite filter_cons_True; [by rewrite IH|]. by destruct s.
Qed.

(** *** Pages *)

Lemma take_min {A} (n : nat) (l : list A) : take n l = take (n `min` length l) l.
Proof.
  destruct (decide (n ≤ length l)%nat).
  - by rewrite Nat.min_l.
  - rewrite Nat.min_r by lia. rewrite !take_ge; [done|lia..].
Qed.

Lemma slice_window {A} (a n : Z) (xs : list A) :
  (0 <= a)%Z → (0 <= n)%Z →
  slice a (a + n) xs = take (Z.to_nat n) (drop (Z.to_nat a) xs).
Proof.
  intros Ha Hn. unfold slice.
  assert ((a <? 0)%Z = false) as -> by lia.
  assert ((a + n <? 0)%Z = false) as -> by lia.
  destruct (decide (a <= Z.of_nat (length xs))%Z).
  - rewrite (Z.min_l a) by done.
    rewrite (take_min (Z.to_nat n)), (take_min (Z.to_nat (_ - a))).
    rewrite length_drop. f_equal. lia.
  - rewrite (Z.min_r a), (Z.min_r (a + n)) by lia.
    rewrite !drop_ge by lia. by rewrite !take_nil.
Qed.

Lemma changeContextPage_fields (delta : Z) (st : search_state (char := char)) :
  keyword (changeContextPage delta st) = keyword st ∧
  results (changeContextPage delta st) = results st ∧
  pageSize (changeContextPage delta st) = pageSize st ∧
  totalPages (changeContextPage delta st) = totalPages st.
Proof. unfold changeContextPage, totalPages. by destruct (_ && _). Qed.

Lemma changeContextPage_page (delta : Z) (st : search_state (char := char)) :
  current_page (changeContextPage delta st)
  = if decide (1 <= current_page st + delta <= totalPages st)%Z
    then (current_page st + delta)%Z else current_page st.
Proof.
  unfold changeContextPage. cbv zeta.
  destruct (decide _) as [[H1 H2]|Hno].
  - assert ((1 <=? current_page st + delta)%Z = true) as -> by lia.
    assert ((current_page st + delta <=? totalPages st)%Z = true) as -> by lia.
    done.
  - destruct (1 <=? current_page st + delta)%Z eqn:H1;
      destruct (current_page st + delta <=? totalPages st)%Z eqn:H2; try done.
    destruct Hno. lia.
Qed.

Lemma after_clicks_fields (deltas : list Z) (st : search_state (char := char)) :
  keyword (after_clicks deltas st) = keyword st ∧
  results (after_clicks deltas st) = results st ∧
  pageSize (after_clicks deltas st) = pageSize st ∧
  totalPages (after_clicks deltas st) = totalPages st ∧
  ((1 <= current_page st <= totalPages st)%Z →
   (1 <= current_page (after_clicks deltas st) <= totalPages st)%Z) ∧
  (totalPages st = 0%Z → current_page (after_clicks deltas st) = current_page st).
Proof.
  unfold after_clicks. revert st.
  induction deltas as [|delta deltas IH]; intros st; cbn [foldl]; [done|].
  destruct (IH (changeContextPage delta st)) as (Hk & Hr & Hp & Ht & Hin & Hz).
  destruct (changeContextPage_fields delta st) as (Hk' & Hr' & Hp' & Ht').
  pose proof (changeContextPage_page delta st) as Hpage.
  rewrite Hk, Hr, Hp, Ht, Hk', Hr', Hp', Ht'. repeat split; try done.
  - rewrite Ht' in Hin. apply Hin. rewrite Hpage. by case_decide.
  - rewrite Ht' in Hin. apply Hin. rewrite Hpage. case_decide; lia.
  - intros H0. rewrite Ht' in Hz. rewrite (Hz H0), Hpage. case_decide; [lia|done].
Qed.

Lemma totalPages_bounds (st : search_state (char := char)) :
  pageSize st = 10%Z →
  (10 * (totalPages st - 1) < Z.of_nat (length (results st)) <= 10 * totalPages st)%Z.
Proof.
  intros Hp. unfold totalPages. rewrite Hp.
  pose proof (Z.div_mod (Z.of_nat (length (results st)) + 10 - 1) 10).
  pose proof (Z.mod_pos_bound (Z.of_nat (length (results st)) + 10 - 1) 10). lia.
Qed.

Lemma pageItems_window (st : search_state (char := char)) :
  pageSize st = 10%Z → (1 <= current_page st)%Z →
  pageItems st = take 10 (drop (Z.to_nat (10 * (current_page st - 1))) (results st)).
Proof.
  intros Hp H1. unfold pageItems. cbv zeta. rewrite Hp.
  rewrite slice_window by lia. do 2 f_equal. lia.
Qed.

(** X20.  However the page buttons are clicked after a search, the
    keyword, the results and the page size stay as the search left them.
    With no result the panel shows the notice.  With results the current
    page stays between 1 and the number of pages, it shows at least one
    and at most ten results, and a button is disabled exactly when a
    click on it would change nothing. *)
Theorem paging_stays_on_a_page (text kw : list char) (deltas : list Z) :
  let st0 := performSearch terminator text kw in
  let st := after_clicks deltas st0 in
  keyword st = kw ∧ results st = results st0 ∧ pageSize st = 10%Z ∧
  (results st0 = [] → renderContextResults st = NoResults) ∧
  (results st0 ≠ [] →
   (1 <= current_page st <= totalPages st)%Z ∧
   pageItems st ≠ [] ∧ (length (pageItems st) ≤ 10)%nat ∧
   ∃ prev next,
     renderContextResults st
     = ResultPage (pageItems st) (current_page st) (totalPages st)
                  (length (results st0)) prev next ∧
     (prev = true ↔ changeContextPage (-1) st = st) ∧
     (next = true ↔ changeContextPage 1 st = st)).
Proof.
  intros st0 st.
  destruct (after_clicks_fields deltas st0) as (Hk & Hr & Hp & Ht & Hin & _).
  fold st in Hk, Hr, Hp, Ht, Hin.
  assert (pageSize st = 10%Z) as Hp10 by (by rewrite Hp).
  split; [done|]. split; [done|]. split; [done|]. split.
  - intros Hnil. unfold renderContextResults. by rewrite Hr, Hnil.
  - intros Hne.
    pose proof (totalPages_bounds st Hp10) as Hb. rewrite Hr in Hb.
    assert (1 <= length (results st0))%nat as Hlen by (destruct (results st0); [done|simpl; lia]).
    assert (1 <= current_page st <= totalPages st)%Z as Hpage.
    { rewrite Ht. apply Hin. change (current_page st0) with 1%Z.
      pose proof (totalPages_bounds st0 eq_refl). lia. }
    assert (length (pageItems st)
            = (10 `min` (length (results st0) - Z.to_nat (10 * (current_page st - 1))))%nat)
      as Hlenp.
    { rewrite pageItems_window by (done || lia).
      by rewrite length_take, length_drop, Hr. }
    split; [done|]. split; [|split; [lia|]].
    { intros Hnil. rewrite Hnil in Hlenp. cbn [length] in Hlenp. lia. }
    eexists _, _. split.
    { unfold renderContextResults. rewrite Hr.
      destruct (results st0); [done|reflexivity]. }
    pose proof (changeContextPage_page (-1) st) as Hprev.
    pose proof (changeContextPage_page 1 st) as Hnext.
    split; rewrite Z.leb_le; split.
    + intros Hle. unfold changeContextPage. cbv zeta.
      by assert ((1 <=? current_page st + -1)%Z = false) as -> by lia.
    + intros Hsame. clear Hnext. rewrite Hsame in Hprev. case_decide; lia.
    + intros Hle. unfold changeContextPage. cbv zeta.
      assert ((current_page st + 1 <=? totalPages st)%Z = false) as -> by lia.
      by rewrite andb_false_r.
    + intros Hsame. clear Hprev. rewrite Hsame in Hnext. case_decide; lia.
Qed.

Lemma concat_chunks {A} (n m : nat) (l : list A) :
  (length l ≤ m * n)%nat →
  concat ((λ k, take n (drop (n * k) l)) <$> seq 0 m) = l.
Proof.
  revert l. induction m as [|m IH]; intros l Hlen.
  - by destruct l; [|simpl in Hlen; lia].
  - cbn [seq fmap list_fmap concat]. rewrite <- fmap_S_seq, <- list_fmap_compose.
    rewrite Nat.mul_0_r, drop_0.
    transitivity (take n l ++ drop n l)%list; [|apply take_drop]. f_equal.
    transitivity (concat ((λ k, take n (drop (n * k) (drop n l))) <$> seq 0 m));
      [|apply IH; rewrite length_drop; lia].
    f_equal. apply list_fmap_ext. intros _ k _. cbn [compose].
    rewrite drop_drop. do 2 f_equal. lia.
Qed.

(** X21.  Going through the pages of a search from the first to the
    last shows every result exactly once and in order. *)
Theorem pages_show_every_result_once (text kw : list char) :
  let st0 := performSearch terminator text kw in
  concat ((λ k : nat, pageItems (changeContextPage (Z.of_nat k) st0))
            <$> seq 0 (Z.to_nat (totalPages st0)))
  = results st0.
Proof.
  intros st0.
  pose proof (totalPages_bounds st0 eq_refl) as Hb.
  transitivity (concat ((λ k, take 10 (drop (10 * k) (results st0)))
                          <$> seq 0 (Z.to_nat (totalPages st0))));
    [|apply concat_chunks; lia].
  f_equal. apply list_fmap_ext. intros i k Hk.
  apply lookup_seq in Hk as [-> Hi]. cbn [plus].
  destruct (changeContextPage_fields (Z.of_nat i) st0) as (_ & Hr & Hp & _).
  pose proof (changeContextPage_page (Z.of_nat i) st0) as Hpage.
  change (current_page st0) with 1%Z in Hpage.
  rewrite decide_True in Hpage by lia.
  rewrite pageItems_window by (rewrite ?Hp, ?Hpage; done || lia).
  rewrite Hr, Hpage. do 2 f_equal. lia.
Qed.

End SearchFacts.

(* ===================================================================== *)
(** ** The scenario graph under these properties                          *)
(* ===================================================================== *)



Lemma filterData_idempotent_witness :
  (0 <= 2)%Z ∧ forallb no_null_end [Sample.AB; Sample.BC] = true ∧
  ∃ d, React.filterData (Some Sample.abc) 2 = Ok (Some d) ∧
       nodes d = Some (take (Z.to_nat 2) [Sample.A; Sample.B; Sample.C]) ∧
       (∃ ls', links d = Some ls' ∧
               ∀ l, l ∈ ls' ↔
                    l ∈ [Sample.AB; Sample.BC] ∧
                    joins (node_id <$> take (Z.to_nat 2) [Sample.A; Sample.B; Sample.C]) l) ∧
       React.filterData (Some d) 2 = Ok (Some d).
Proof.
  split; [lia|]. split; [vm_compute; reflexivity|].
  apply (filterData_idempotent 2 [Sample.A; Sample.B; Sample.C]
           [Sample.AB; Sample.BC] Sample.abc_meta Sample.abc_group_names);
    [lia|vm_compute; reflexivity].
Defined.

(** The slider of the React page moved to 1 and back to 3. *)
Lemma range_change_loses_nothing_witness :
  React.graphData Sample.loaded = Some Sample.abc ∧
  forallb no_null_end [Sample.AB; Sample.BC] = true ∧
  ∃ st_a st_b,
    React.handleNodeRangeChange 1 Sample.loaded = (st_a, Ok ()) ∧
    React.handleNodeRangeChange 3 st_a = (st_b, Ok ()) ∧
    React.filteredData st_b
    = Some (top_graph 3 [Sample.A; Sample.B; Sample.C] [Sample.AB; Sample.BC]
              Sample.abc_meta Sample.abc_group_names) ∧
    React.nodeCount st_b = 3%Z ∧
    React.graphData st_b = Some Sample.abc ∧
    React.handleExport React.json st_b = Some (JSON_stringify Sample.abc).
Proof.
  split; [reflexivity|]. split; [vm_compute; reflexivity|].
  apply (range_change_loses_nothing 1 3 Sample.loaded
           [Sample.A; Sample.B; Sample.C] [Sample.AB; Sample.BC]
           Sample.abc_meta Sample.abc_group_names);
    [reflexivity|vm_compute; reflexivity].
Defined.

Lemma react_import_installs_graph_witness :
  forallb no_null_end [Sample.AB; Sample.BC] = true ∧
  ∃ st',
    React.handleImport (JsonText Sample.abc) Sample.loaded = (st', Ok ()) ∧
    React.graphData st' = Some Sample.abc ∧
    React.nodeCount st' = Z.min 200 (Z.of_nat (length [Sample.A; Sample.B; Sample.C])) ∧
    React.filteredData st'
    = Some (top_graph (Z.min 200 (Z.of_nat (length [Sample.A; Sample.B; Sample.C])))
              [Sample.A; Sample.B; Sample.C] [Sample.AB; Sample.BC]
              Sample.abc_meta Sample.abc_group_names) ∧
    React.stats st' = (m ← Sample.abc_meta; meta_stats m) ∧
    React.selectedNode st' = React.selectedNode Sample.loaded.
Proof.
  split; [vm_compute; reflexivity|].
  apply (react_import_installs_graph Sample.loaded
           [Sample.A; Sample.B; Sample.C] [Sample.AB; Sample.BC]
           Sample.abc_meta Sample.abc_group_names).
  vm_compute. reflexivity.
Defined.




(** The graph with the link [A-Z] to a node it lacks: the [links] table
    of its export refers to node rows only. *)
Lemma sqlite_links_refer_to_node_rows_witness :
  ∃ db, exportDataToSQLite Sample.toString (Some Sample.dangling_graph) = Ok (Some db) ∧
  ∃ nt lt ls, tbl_nodes db = Some nt ∧ tbl_links db = Some lt ∧
              links Sample.dangling_graph = Some ls ∧
              (length (values lt) ≤ length ls)%nat ∧
              Forall (λ row, ∃ s t w, row = [s; t; w] ∧
                                      s ∈ id_cells nt ∧ t ∈ id_cells nt)
                     (values lt).
Proof.
  eexists. split; [vm_compute; reflexivity|].
  apply (sqlite_links_refer_to_node_rows Sample.toString Sample.dangling_graph).
  vm_compute. reflexivity.
Defined.

(** The scenario graph with [B-C] resolved at its source, and with raw
    ids throughout. *)
Lemma export_same_for_resolved_ends_witness :
  Forall2 same_link [Sample.AB; Sample.BC] [Sample.AB; Sample.BC_raw] ∧
  forallb named_ends [Sample.AB; Sample.BC] = true ∧
  exportDataToExcel (Some Sample.abc)
  = exportDataToExcel
      (Some {| nodes := Some [Sample.A; Sample.B; Sample.C];
               links := Some [Sample.AB; Sample.BC_raw];
               meta := Sample.abc_meta; group_names := Sample.abc_group_names |}) ∧
  exportDataToSQLite Sample.toString (Some Sample.abc)
  = exportDataToSQLite Sample.toString
      (Some {| nodes := Some [Sample.A; Sample.B; Sample.C];
               links := Some [Sample.AB; Sample.BC_raw];
               meta := Sample.abc_meta; group_names := Sample.abc_group_names |}).
Proof.
  assert (Forall2 same_link [Sample.AB; Sample.BC] [Sample.AB; Sample.BC_raw]) as Hsame.
  { repeat constructor. }
  assert (forallb named_ends [Sample.AB; Sample.BC] = true) as Hnamed
    by (vm_compute; reflexivity).
  split; [exact Hsame|]. split; [exact Hnamed|].
  exact (export_same_for_resolved_ends Sample.toString
           [Sample.A; Sample.B; Sample.C] [Sample.AB; Sample.BC]
           [Sample.AB; Sample.BC_raw] Sample.abc_meta Sample.abc_group_names
           Hsame Hnamed).
Defined.

(** One third, written as 0.33, stays 0.33. *)
Lemma rounded_weight_is_stable_witness :
  Number_toFixed2 (PNum Sample.third) = Ok (PNum (toFixed2 Sample.third)) ∧
  Number_toFixed2 (PNum (toFixed2 Sample.third)) = Ok (PNum (toFixed2 Sample.third)).
Proof.
  split; [reflexivity|].
  apply (rounded_weight_is_stable (PNum Sample.third)). reflexivity.
Defined.

(** [B] selected in the drawing with the link [B-C]. *)
Lemma highlight_same_for_linked_node_witness :
  Exists (touches (node_id Sample.B)) (drawn_links Sample.drawn) ∧
  Vanilla.neighborIds Sample.B (drawn_links Sample.drawn)
  = React.neighborIds Sample.B (drawn_links Sample.drawn) ∧
  Vanilla.highlightNeighbors Sample.B Sample.drawn
  = React.highlight (Some Sample.B) (drawn_nodes Sample.drawn) (drawn_links Sample.drawn).
Proof.
  assert (Exists (touches (node_id Sample.B)) (drawn_links Sample.drawn)) as Hex.
  { apply Exists_cons_hd. by left. }
  split; [exact Hex|].
  exact (highlight_same_for_linked_node Sample.B Sample.drawn Hex).
Defined.

(* ===================================================================== *)
(** ** What the pages hold after a deletion, an upload, an import        *)
(* ===================================================================== *)

Section PageFacts.

Variable ts : Qc → string.
Variable pI : prim → option Z.
Variable fn : string.

Lemma slice0_subseteq {A} (c : Z) (xs : list A) : slice0 c xs ⊆ xs.
Proof. unfold slice0. destruct (c <? 0)%Z; apply subseteq_take. Qed.

Lemma slice0_all {A} (c : Z) (xs : list A) :
  (Z.of_nat (length xs) <= c)%Z → slice0 c xs = xs.
Proof.
  intros Hc. unfold slice0.
  assert ((c <? 0)%Z = false) as -> by lia. apply take_ge. lia.
Qed.

(** X22.  A deletion on the React page redraws the view from the new
    graph with the node count the slider had, which it leaves as it was;
    the deleted node is not in the view, the context panel is closed, and
    with the selection gone a second press of the button does nothing. *)
Theorem delete_refreshes_view_and_is_spent (st : React.app) (sel : Node)
    (ns : list Node) (ls : list Link) (mt : option Meta)
    (gn : option (gmap string string)) :
  React.selectedNode st = Some sel →
  React.graphData st
  = Some {| nodes := Some ns; links := Some ls; meta := mt; group_names := gn |} →
  forallb no_null_end ls = true →
  ∃ st' view,
    React.handleDeleteNode st = (st', Ok ()) ∧
    React.filteredData st'
    = Some {| nodes := Some view;
              links := Some (filter (joins (node_id <$> view))
                               (filter (λ l, ¬ touches (node_id sel) l) ls));
              meta := mt; group_names := gn |} ∧
    view = slice0 (React.nodeCount st) (filter (λ n, node_id n ≠ node_id sel) ns) ∧
    Forall (λ n, node_id n ≠ node_id sel) view ∧
    React.nodeCount st' = React.nodeCount st ∧
    React.contextOpen st' = false ∧
    React.stats st' = React.stats st ∧
    React.handleDeleteNode st' = (st', Ok ()).
Proof.
  intros Hsel Hg Hnn.
  assert (filter (λ l, bool_decide (endpoint_id (source l) ≠ node_id sel)
                       && bool_decide (endpoint_id (target l) ≠ node_id sel) = true) ls
          = filter (λ l, ¬ touches (node_id sel) l) ls) as Hfilter.
  { apply list_filter_iff. intros l. unfold touches.
    rewrite andb_true_iff, !bool_decide_eq_true. tauto. }
  unfold React.handleDeleteNode at 1. rewrite Hsel, Hg.
  cbn [nodes links meta group_names Vanilla.member mbind outcome_bind JS.bind].
  rewrite (filter_by_ends (λ s t, bool_decide (s ≠ node_id sel)
                                  && bool_decide (t ≠ node_id sel)) ls Hnn).
  cbn [mbind outcome_bind JS.bind]. rewrite Hfilter.
  rewrite filterData_no_null by by apply no_null_filter.
  eexists _, _. split; [reflexivity|].
  cbn [React.filteredData React.nodeCount React.contextOpen React.stats
       React.setContextOpen React.setSelectedNode React.setFilteredData
       React.setGraphData].
  split; [reflexivity|]. split; [reflexivity|]. split.
  { apply list.Forall_forall. intros n Hn%slice0_subseteq.
    by apply list_elem_of_filter in Hn as [Hn _]. }
  by repeat split.
Qed.

(** X23.  The [completed] message of an analysis and the import of the
    same graph leave the React page alike, whether the handler throws or
    not, but for the statistics: the import always takes them from the
    graph, and clears them when the graph has none, whereas the upload
    then keeps the ones shown before. *)
Theorem upload_and_import_differ_in_stats_only (G : GraphData) (st : React.app) :
  let up := React.upload_completed G st in
  let im := React.handleImport (JsonText G) st in
  up.2 = im.2 ∧
  React.graphData up.1 = React.graphData im.1 ∧
  React.filteredData up.1 = React.filteredData im.1 ∧
  React.nodeCount up.1 = React.nodeCount im.1 ∧
  React.selectedNode up.1 = React.selectedNode im.1 ∧
  React.contextOpen up.1 = React.contextOpen im.1 ∧
  React.graphData im.1 = Some G ∧
  React.stats im.1 = (m ← meta G; meta_stats m) ∧
  React.stats up.1 = match m ← meta G; meta_stats m with
                     | Some s => Some s
                     | None => React.stats st
                     end.
Proof.
  unfold React.upload_completed, React.handleImport. cbn [JSON_parse]. cbv zeta.
  destruct (m ← meta G; meta_stats m) as [s|];
    destruct (nodes G) as [ns|]; try by repeat split.
  all: destruct (React.filterData (Some G) (Z.min 200 (Z.of_nat (length ns))))
         as [fd|e]; by repeat split.
Qed.


End PageFacts.

Lemma delete_refreshes_view_and_is_spent_witness :
  React.selectedNode Sample.loaded = Some Sample.B ∧
  React.graphData Sample.loaded = Some Sample.abc ∧
  forallb no_null_end [Sample.AB; Sample.BC] = true ∧
  ∃ st' view,
    React.handleDeleteNode Sample.loaded = (st', Ok ()) ∧
    React.filteredData st'
    = Some {| nodes := Some view;
              links := Some (filter (joins (node_id <$> view))
                               (filter (λ l, ¬ touches (node_id Sample.B) l)
                                  [Sample.AB; Sample.BC]));
              meta := Sample.abc_meta; group_names := Sample.abc_group_names |} ∧
    view = slice0 (React.nodeCount Sample.loaded)
             (filter (λ n, node_id n ≠ node_id Sample.B)
                [Sample.A; Sample.B; Sample.C]) ∧
    Forall (λ n, node_id n ≠ node_id Sample.B) view ∧
    React.nodeCount st' = React.nodeCount Sample.loaded ∧
    React.contextOpen st' = false ∧
    React.stats st' = React.stats Sample.loaded ∧
    React.handleDeleteNode st' = (st', Ok ()).
Proof.
  split; [reflexivity|]. split; [reflexivity|]. split; [vm_compute; reflexivity|].
  apply (delete_refreshes_view_and_is_spent Sample.loaded Sample.B
           [Sample.A; Sample.B; Sample.C] [Sample.AB; Sample.BC]
           Sample.abc_meta Sample.abc_group_names);
    [reflexivity|reflexivity|vm_compute; reflexivity].
Defined.


(* ===================================================================== *)
(** ** What a tabular decode returns                                      *)
(* ===================================================================== *)

Section DecodedGraphFacts.

Variable ts : Qc → string.
Variable pI : prim → option Z.
Variable fn : string.

Lemma idToLabelMap_get_truthy (b : bool) (rows : list (gmap string prim)) (k : prim) :
  truthy (idToLabelMap_get (idToLabelMap_of b rows) k) = true →
  idToLabelMap_get (idToLabelMap_of b rows) k ∈ node_id <$> (node_of_row b <$> rows).
Proof.
  unfold idToLabelMap_get. rewrite idToLabelMap_of_fold_set.
  destruct (fold_set _ _ ∅ rows !! k) as [v|] eqn:Hl; [|done]. intros _.
  apply fold_set_inv in Hl as [(row & Hrow & _ & Hv)|Hl]; [|done].
  cbn [default from_option id]. apply list_elem_of_fmap.
  exists (node_of_row b row). split.
  - by rewrite node_of_row_column.
  - apply list_elem_of_fmap. by exists row.
Qed.

Lemma decoded_links_join_decoded_nodes (b : bool) (rows lrows : list (gmap string prim)) :
  Forall (λ l, ∃ s t, source l = EPrim s ∧ target l = EPrim t ∧
                      truthy s = true ∧ truthy t = true ∧
                      joins (node_id <$> (node_of_row b <$> rows)) l)
         (omap (link_of_row (idToLabelMap_of b rows)) lrows).
Proof.
  apply list.Forall_forall. intros l (row & _ & Hl)%list_elem_of_omap.
  unfold link_of_row in Hl. cbv zeta in Hl.
  destruct (truthy (idToLabelMap_get _ (get row "source"))) eqn:Hs; [|done].
  destruct (truthy (idToLabelMap_get _ (get row "target"))) eqn:Ht; [|done].
  injection Hl as <-. eexists _, _.
  split; [reflexivity|]. split; [reflexivity|]. split; [done|]. split; [done|].
  split; cbn [source target bare_link endpoint_id]; by apply idToLabelMap_get_truthy.
Qed.

(** X25.  Whatever the tables hold, the graph that a tabular decode
    returns has one node for each row of the nodes table, in order, and
    links whose ends are raw, truthy, and ids of nodes of that graph: a
    link row that does not resolve to two such nodes is left out.  It
    has a [meta] and no [group_names]. *)
Theorem tabular_decode_yields_closed_graph (f : import_file) (g : GraphData) :
  (∀ t, f ≠ PlainFile t) →
  decode ts pI fn f = Ok g →
  ∃ ns ls,
    nodes g = Some ns ∧ links g = Some ls ∧
    is_Some (meta g) ∧ group_names g = None ∧
    length ns = match f with
                | WorkbookFile wb => length (default [] (Sheet_Nodes wb))
                | SQLiteFile db => length (default [] (values <$> tbl_nodes db))
                | PlainFile _ => 0%nat
                end ∧
    Forall (λ l, ∃ s t, source l = EPrim s ∧ target l = EPrim t ∧
                        truthy s = true ∧ truthy t = true ∧
                        joins (node_id <$> ns) l) ls.
Proof.
  intros Hf. destruct f as [t|wb|db]; [by destruct (Hf t)| |]; cbn [decode].
  - unfold decodeWorkbook.
    destruct (Sheet_Nodes wb) as [rawNodes|]; [|done].
    destruct (Sheet_Links wb) as [rawLinks|]; [|done].
    intros [= <-]. eexists _, _. cbn [nodes links meta group_names].
    split; [reflexivity|]. split; [reflexivity|]. split; [by eexists|].
    split; [reflexivity|]. split; [by rewrite length_fmap|].
    apply decoded_links_join_decoded_nodes.
  - unfold decodeSQLite.
    destruct (tbl_nodes db) as [nt|]; [|done].
    destruct (tbl_links db) as [lt|]; [|done].
    intros [= <-]. eexists _, _. cbn [nodes links meta group_names].
    split; [reflexivity|]. split; [reflexivity|]. split; [by eexists|].
    split; [reflexivity|]. split; [by rewrite !length_fmap|].
    apply decoded_links_join_decoded_nodes.
Qed.

End DecodedGraphFacts.

(** The database whose first node has the empty label: its link is left
    out, and both node rows are decoded. *)
Lemma tabular_decode_yields_closed_graph_witness :
  (∀ t, SQLiteFile Sample.empty_label_database ≠ PlainFile t) ∧
  ∃ g, decode Sample.toString Sample.parseInt Sample.file
         (SQLiteFile Sample.empty_label_database) = Ok g ∧
  ∃ ns ls,
    nodes g = Some ns ∧ links g = Some ls ∧
    is_Some (meta g) ∧ group_names g = None ∧
    length ns = length (default [] (values <$> tbl_nodes Sample.empty_label_database)) ∧
    Forall (λ l, ∃ s t, source l = EPrim s ∧ target l = EPrim t ∧
                        truthy s = true ∧ truthy t = true ∧
                        joins (node_id <$> ns) l) ls.
Proof.
  split; [done|]. eexists. split; [vm_compute; reflexivity|].
  apply (tabular_decode_yields_closed_graph Sample.toString Sample.parseInt Sample.file
           (SQLiteFile Sample.empty_label_database)); [done|].
  vm_compute. reflexivity.
Defined.

(* ===================================================================== *)
(** ** When an export fails                                               *)
(* ===================================================================== *)

Section ExportFailureFacts.

Variable ts : Qc → string.

Lemma is_ok_mapM {A B} (f : A → outcome B) (xs : list A) :
  is_ok (mapM f xs) = forallb (λ x, is_ok (f x)) xs.
Proof.
  induction xs as [|x xs IH]; [done|]. cbn [mapM forallb].
  destruct (f x) as [y|]; cbn [JS.bind is_ok andb]; [|done].
  rewrite <- IH. by destruct (mapM f xs).
Qed.

Lemma forallb_same {A} (f g : A → bool) (xs : list A) :
  (∀ x, f x = g x) → forallb f xs = forallb g xs.
Proof. intros Hfg. induction xs as [|x xs IH]; simpl; [done|]. by rewrite Hfg, IH. Qed.

Lemma is_ok_excel_node_row (n : Node) :
  is_ok (excel_node_row n) = is_num (node_weight n).
Proof. unfold excel_node_row. by destruct (node_weight n). Qed.

Lemma is_ok_cell (e : endpoint) : is_ok (getId e ≫= cell_value) = cell_end e.
Proof.
  destruct e as [[]|nd]; try done. cbn [getId cell_end].
  by destruct (truthy (node_id nd)).
Qed.

Lemma is_ok_excel_link_row (l : Link) : is_ok (excel_link_row l) = cell_link l.
Proof.
  unfold excel_link_row, cell_link. rewrite <- !is_ok_cell.
  destruct (getId (source l) ≫= cell_value) as [s|]; [|done].
  destruct (getId (target l) ≫= cell_value) as [t|]; [|done].
  by destruct (link_weight l).
Qed.

Lemma is_ok_sqlite_link_row (m : gmap prim Z) (l : Link) :
  is_ok (sqlite_link_row m l) = no_null_end l.
Proof.
  unfold sqlite_link_row, no_null_end.
  destruct (source l) as [[]|sn], (target l) as [[]|tn]; done.
Qed.

Lemma is_ok_sqlite_meta (mt : option Meta) :
  is_ok (match mt with
         | Some m => sqlite_meta_rows ts m ≫= λ r, Ok (Some r)
         | None => Ok None
         end) = meta_printable mt.
Proof.
  destruct mt as [m|]; [|done]. unfold sqlite_meta_rows, meta_printable.
  destruct (meta_stats m) as [[a b]|]; [|done].
  by destruct a, b.
Qed.


End ExportFailureFacts.
